(** * io_object_mu: the mesh export pipeline of [export_mu/mesh.py]

    A shallow embedding of the Python module [export_mu/mesh.py] (face
    splitting, vertex deduplication, tangent construction, material
    binding, skin resolution and mesh assembly) together with the
    properties of it that the design document states.

    Conventions of the embedding:
    - a Python exception is a value of [exn]; a function that may raise
      returns a [result];
    - a Python [list] is a [list]; [l[i]] is [py_index], which raises
      [IndexError] out of range;
    - a Python [dict] is a [gmap];
    - a Python float is an element of an abstract type [num]; only the
      operations the module applies to floats are assumed to exist, and no
      law is assumed of them, so every theorem holds for IEEE doubles as
      well as for the rationals used in the examples;
    - [mathutils.Vector] objects are mutable: they live in a heap and
      Python variables and list cells hold locations of it. *)

From stdpp Require Import gmap strings list.
From Stdlib Require Import QArith Qabs.
Close Scope Q_scope.

(** ** Exceptions and results *)

Inductive exn : Set :=
| IndexError
| KeyError
| TypeError
| NameError
| AttributeError
| ZeroDivisionError.

Inductive result (A : Type) : Type :=
| Ok (a : A)
| Raise (e : exn).

Arguments Ok {A} a.
Arguments Raise {A} e.

#[global] Instance result_ret : MRet result := fun A a => Ok a.
#[global] Instance result_bind : MBind result := fun A B f m =>
  match m with
  | Ok a => f a
  | Raise e => Raise e
  end.


Definition is_Ok {A} (r : result A) : Prop := exists a, r = Ok a.

(** [l[i]] for a non-negative index. *)
Definition py_index {A} (l : list A) (i : nat) : result A :=
  match l !! i with
  | Some x => Ok x
  | None => Raise IndexError
  end.

(** [l[s:e]] for [0 <= s <= e]; a slice never raises. *)
Definition py_slice {A} (l : list A) (s e : nat) : list A :=
  take (e - s) (drop s l).

(** [d[k]] on a dict. *)
Definition dict_get `{Countable K} {V} (d : gmap K V) (k : K) : result V :=
  match d !! k with
  | Some v => Ok v
  | None => Raise KeyError
  end.

(** [o.attr] where the attribute may be absent from the object. *)
Definition get_attr {A} (a : option A) : result A :=
  match a with
  | Some v => Ok v
  | None => Raise AttributeError
  end.

(** [for x in xs: st = body(st, x)], the body may raise. *)
Fixpoint for_each {S X} (body : S -> X -> result S) (xs : list X) (st : S)
  : result S :=
  match xs with
  | [] => Ok st
  | x :: xs' => st' ← body st x; for_each body xs' st'
  end.

(** A loop that threads a state and collects one output per element:
    [ys = []; for x in xs: st, y = body(st, x); ys.append(y)]. *)
Fixpoint map_accum {S X Y} (body : S -> X -> result (S * Y)) (st : S)
    (xs : list X) : result (S * list Y) :=
  match xs with
  | [] => Ok (st, [])
  | x :: xs' =>
      '(st1, y) ← body st x;
      '(st2, ys) ← map_accum body st1 xs';
      Ok (st2, y :: ys)
  end.

(** [[f(x) for x in xs]], [f] may raise. *)
Fixpoint map_result {X Y} (f : X -> result Y) (xs : list X) : result (list Y) :=
  match xs with
  | [] => Ok []
  | x :: xs' => y ← f x; ys ← map_result f xs'; Ok (y :: ys)
  end.

(** ** Floats and vectors

    The float operations that [mesh.py] uses.  [fis_zero] is the test a
    division makes of its divisor.  [vnormalize] is
    [mathutils.Vector.normalize], which rescales a vector in place and
    does not raise. *)

Class FloatOps (num : Type) := {
  fzero : num;
  fone : num;
  fneg_one : num;
  feps : num;                       (* the literal 1e-6 *)
  fadd : num -> num -> num;
  fsub : num -> num -> num;
  fmul : num -> num -> num;
  fdiv : num -> num -> num;
  flt : num -> num -> bool;
  fis_zero : num -> bool;           (* the comparison with 0.0 *)
  vnormalize : num * num * num -> num * num * num;
}.

Section Model.
Context {num : Type} `{Countable num}.

(** A 2D uv coordinate ([tuple(a.uv)]) and a 3D tuple ([tuple(mv.co)]). *)
Definition UV : Type := num * num.
Definition Vec3 : Type := num * num * num.

(** *** The source mesh (the [bpy] data the module reads) *)

Record VertexGroupElement := {
  group : nat;
  weight : num;
}.

Record MeshVertex := {
  co : Vec3;
  normal : Vec3;
  groups : list VertexGroupElement;
}.

Record MeshPolygon := {
  loop_start : nat;
  loop_total : nat;
  vertices : list nat;
}.

(** [mat.name] and [mat.mumatprop.shaderName]. *)
Record Material := {
  name : string;
  shaderName : string;
}.

(** [uv_layers] holds, per layer, the [uv] of every loop of [layer.data].
    [mesh_groups] is the attribute [groups] that [make_mesh] sets on the
    mesh object; a mesh that comes from Blender does not have it. *)
Record Mesh := {
  polygons : list MeshPolygon;
  uv_layers : list (list UV);
  mesh_vertices : list MeshVertex;
  materials : list Material;
  mesh_groups : option (list (list VertexGroupElement));
}.

(** [(fv[i], (uv0[i], uv1[i]))]: a vertex index with one uv per layer. *)
Definition CornerKey : Type := nat * list UV.

(** ** [split_face] *)

(** One element of a triangle: [(fv[i], tuple(map(lambda l: tuple(l[i]), uv)))]. *)
Definition corner (fv : list nat) (uv : list (list UV)) (i : nat)
  : result CornerKey :=
  v ← py_index fv i;
  c ← map_result (fun l => py_index l i) uv;
  Ok (v, c).

Definition split_face (mesh : Mesh) (index : nat)
  : result (list (list CornerKey)) :=
  face ← py_index (polygons mesh) index;
  let s := loop_start face in
  let e := loop_start face + loop_total face in
  let uv := map (fun layer => py_slice layer s e) (take 2 (uv_layers mesh)) in
  let fv := vertices face in
  map_result
    (fun i =>
       c0 ← corner fv uv 0;
       c1 ← corner fv uv i;
       c2 ← corner fv uv (i + 1);
       Ok [c0; c1; c2])
    (seq 1 (length fv - 2)).

(** Corner [k] of a face, read off the mesh: the vertex index at position
    [k] of the face together with, for each of the first two uv layers,
    the uv of loop [loop_start + k]. *)
Definition face_corner (mesh : Mesh) (face : MeshPolygon) (k : nat)
  : option CornerKey :=
  v ← vertices face !! k;
  c ← mapM (fun layer : list UV => layer !! (loop_start face + k))
           (take 2 (uv_layers mesh));
  Some (v, c).

(** The mesh data covers the face: one loop per vertex of the face, and
    every uv layer read has an entry for each of these loops. *)
Definition face_wf (mesh : Mesh) (face : MeshPolygon) : Prop :=
  length (vertices face) <= loop_total face /\
  Forall (fun layer : list UV =>
            loop_start face + loop_total face <= length layer)
         (take 2 (uv_layers mesh)).

(** ** [build_submeshes] and [make_tris] *)

Definition build_submeshes (mesh : Mesh) : list (list nat) :=
  [seq 0 (length (polygons mesh))].

(** The [while] loop of [make_tris] on one submesh: the face index at
    position [i] is replaced by the triangles of that face and [i] moves
    past them, so the submesh becomes the triangles of its faces in
    order. *)
Fixpoint make_tris_submesh (mesh : Mesh) (sm : list nat)
  : result (list (list CornerKey)) :=
  match sm with
  | [] => Ok []
  | f :: sm' =>
      tris ← split_face mesh f;
      rest ← make_tris_submesh mesh sm';
      Ok (tris ++ rest)
  end.

Definition make_tris (mesh : Mesh) (submeshes : list (list nat))
  : result (list (list (list CornerKey))) :=
  map_result (make_tris_submesh mesh) submeshes.

(** ** [make_verts] *)

(** The four lists [verts], [normals], [uvs], [groups]. *)
Record VertexStream := {
  verts : list Vec3;
  normals : list Vec3;
  uvs : list (list UV);
  vgroups : list (list VertexGroupElement);
}.

Definition DedupState : Type := VertexStream * gmap CornerKey nat.

(** The body of [for vuv in ft]; the result is the value appended to [tv]. *)
Definition dedup_corner (mesh : Mesh) (st : DedupState) (vuv : CornerKey)
  : result (DedupState * nat) :=
  let '(vs, vuvdict) := st in
  st' ←
    (if decide (vuvdict !! vuv = None) then
       let vuvdict' := <[vuv := length (verts vs)]> vuvdict in
       mv ← py_index (mesh_vertices mesh) vuv.1;
       Ok ({| verts := verts vs ++ [co mv];
              normals := normals vs ++ [normal mv];
              uvs := uvs vs ++ [vuv.2];
              vgroups := vgroups vs ++ [groups mv] |}, vuvdict')
     else Ok (vs, vuvdict));
  k ← dict_get st'.2 vuv;
  Ok (st', k).

(** The body of [for i, ft in enumerate(sm)]: [sm[i]] becomes [tv]. *)
Definition dedup_tri (mesh : Mesh) (st : DedupState) (ft : list CornerKey)
  : result (DedupState * list nat) :=
  map_accum (dedup_corner mesh) st ft.

(** The body of [for sm in submeshes]: a new [vuvdict] for every submesh. *)
Definition dedup_submesh (mesh : Mesh) (vs : VertexStream)
    (sm : list (list CornerKey)) : result (VertexStream * list (list nat)) :=
  '(st, sm') ← map_accum (dedup_tri mesh) (vs, ∅) sm;
  Ok (st.1, sm').

Definition empty_stream : VertexStream :=
  {| verts := []; normals := []; uvs := []; vgroups := [] |}.

(** Returns the stream ([verts, uvs, normals, groups]) and the submeshes as
    the in-place assignments [sm[i] = tv] leave them. *)
Definition make_verts (mesh : Mesh) (submeshes : list (list (list CornerKey)))
  : result (VertexStream * list (list (list nat))) :=
  map_accum (dedup_submesh mesh) empty_stream submeshes.

(** The four lists of a stream have one length. *)
Definition stream_aligned (vs : VertexStream) : Prop :=
  length (normals vs) = length (verts vs) /\
  length (uvs vs) = length (verts vs) /\
  length (vgroups vs) = length (verts vs).

(** Corner [c] of triangle [t] of submesh [s]. *)
Definition corner_at {A} (sms : list (list (list A))) (s t c : nat)
  : option A :=
  sm ← sms !! s; tri ← sm !! t; tri !! c.

(** The distinct corner keys of a submesh. *)
Definition submesh_keys (sm : list (list CornerKey)) : gset CornerKey :=
  list_to_set (concat sm).

(** Every corner names a vertex of the mesh. *)
Definition corners_wf (mesh : Mesh) (sms : list (list (list CornerKey)))
  : Prop :=
  Forall (Forall (Forall (fun k : CornerKey =>
                            k.1 < length (mesh_vertices mesh)))) sms.

(** What [vuvdict] is when a submesh that started at stream length [lo]
    is done: it maps exactly the keys of the submesh, one-to-one, into
    the indices from [lo] on, and the submesh is rewritten through it. *)
Definition submesh_dict (lo : nat) (sm : list (list CornerKey))
    (sm' : list (list nat)) (d : gmap CornerKey nat) : Prop :=
  dom d = submesh_keys sm /\
  (forall k i, d !! k = Some i -> lo <= i < lo + size d) /\
  (forall k1 k2 i, d !! k1 = Some i -> d !! k2 = Some i -> k1 = k2) /\
  Forall2 (Forall2 (fun k i => d !! k = Some i)) sm sm'.

(** The rewritten submeshes against the source ones, for a stream that
    grows from length [lo] to length [hi]: each submesh has a dict of its
    own and takes the indices that follow those of the one before. *)
Fixpoint dedup_rel (lo : nat) (sms : list (list (list CornerKey)))
    (sms' : list (list (list nat))) (hi : nat) : Prop :=
  match sms, sms' with
  | [], [] => lo = hi
  | sm :: sms1, sm' :: sms1' =>
      exists d, submesh_dict lo sm sm' d /\
                dedup_rel (lo + size d) sms1 sms1' hi
  | _, _ => False
  end.

(** The invariant of the loops over one submesh, whose stream started at
    length [lo] and whose keys all lie in [K]. *)
Definition dict_inv (lo : nat) (K : gset CornerKey) (st : DedupState)
  : Prop :=
  stream_aligned st.1 /\
  length (verts st.1) = lo + size st.2 /\
  dom st.2 ⊆ K /\
  (forall (k : CornerKey) i, st.2 !! k = Some i -> lo <= i < lo + size st.2) /\
  (forall (k1 k2 : CornerKey) i,
     st.2 !! k1 = Some i -> st.2 !! k2 = Some i -> k1 = k2).

(** The dict only grows while a submesh is processed. *)
Definition dict_le (st st' : DedupState) : Prop :=
  st.2 ⊆ st'.2.

(** ** [make_tangents] *)

Context {ops : FloatOps num}.

Definition vzero : Vec3 := (fzero, fzero, fzero).

Definition vadd (a b : Vec3) : Vec3 :=
  let '(a1, a2, a3) := a in
  let '(b1, b2, b3) := b in
  (fadd a1 b1, fadd a2 b2, fadd a3 b3).

Definition vsub (a b : Vec3) : Vec3 :=
  let '(a1, a2, a3) := a in
  let '(b1, b2, b3) := b in
  (fsub a1 b1, fsub a2 b2, fsub a3 b3).

(** [s * v] for a float [s]. *)
Definition vscale (s : num) (a : Vec3) : Vec3 :=
  let '(a1, a2, a3) := a in (fmul s a1, fmul s a2, fmul s a3).

(** [v / s] for a float [s]: division by zero raises. *)
Definition vdiv (a : Vec3) (s : num) : result Vec3 :=
  if fis_zero s then Raise ZeroDivisionError
  else let '(a1, a2, a3) := a in Ok (fdiv a1 s, fdiv a2 s, fdiv a3 s).

Definition vdot (a b : Vec3) : num :=
  let '(a1, a2, a3) := a in
  let '(b1, b2, b3) := b in
  fadd (fadd (fmul a1 b1) (fmul a2 b2)) (fmul a3 b3).

Definition vtuple (a : Vec3) : list num :=
  let '(a1, a2, a3) := a in [a1; a2; a3].

(** [Vector] objects are mutable and are handled by reference: the heap,
    a [list Vec3], holds the objects, and a location, the position of an
    object in the heap, names it. *)

(** [Vector(...)]: a new object. *)
Definition heap_alloc (h : list Vec3) (v : Vec3) : list Vec3 * nat :=
  (h ++ [v], length h).

Definition heap_read (h : list Vec3) (l : nat) : Vec3 := default vzero (h !! l).

Definition heap_write (h : list Vec3) (l : nat) (v : Vec3) : list Vec3 := <[l := v]> h.

(** The lists [sdir] and [tdir] hold references to [Vector] objects. *)
Record TangentState := {
  t_heap : list Vec3;
  sdir : list nat;
  tdir : list nat;
}.

(** [sdir = [Vector()] * len(verts)]: one [Vector] is built and the list
    repeats the reference to it; likewise [tdir]. *)
Definition tangent_init (verts : list Vec3) : TangentState :=
  let '(h0, s) := heap_alloc [] vzero in
  let '(h1, t) := heap_alloc h0 vzero in
  {| t_heap := h1;
     sdir := replicate (length verts) s;
     tdir := replicate (length verts) t |}.

(** [cells[k] += d]: [Vector.__iadd__] adds into the object [cells[k]]
    refers to and returns that object, which is stored back in [cells[k]]. *)
Definition iadd_cell (cells : list nat) (k : nat) (d : Vec3) (h : list Vec3)
  : result (list nat * list Vec3) :=
  l ← py_index cells k;
  let h' := heap_write h l (vadd (heap_read h l) d) in
  Ok (<[k := l]> cells, h').

(** The test [r * r < 1e-6] on the uv determinant of a triangle. *)
Definition uv_det (w1 w2 w3 : UV) : num :=
  let s1 := fsub w2.1 w1.1 in
  let s2 := fsub w3.1 w1.1 in
  let t1 := fsub w2.2 w1.2 in
  let t2 := fsub w3.2 w1.2 in
  fsub (fmul s1 t2) (fmul s2 t1).

Definition degenerate (r : num) : bool := flt (fmul r r) feps.

(** The one fact about floats that the tangent builder relies on: a zero
    determinant fails the test [r * r < 1e-6], so that no division by
    zero is reached. *)
Definition zero_is_degenerate : Prop :=
  forall r, fis_zero r = true -> degenerate r = true.

(** The body of [for tri in sm]. *)
Definition accumulate_tri (verts : list Vec3) (uvs : list UV)
    (st : TangentState) (tri : list nat) : result TangentState :=
  i0 ← py_index tri 0;
  v1 ← py_index verts i0;
  i1 ← py_index tri 1;
  v2 ← py_index verts i1;
  i2 ← py_index tri 2;
  v3 ← py_index verts i2;
  w1 ← py_index uvs i0;
  w2 ← py_index uvs i1;
  w3 ← py_index uvs i2;
  let u1 := vsub v2 v1 in
  let u2 := vsub v3 v1 in
  let s1 := fsub w2.1 w1.1 in
  let s2 := fsub w3.1 w1.1 in
  let t1 := fsub w2.2 w1.2 in
  let t2 := fsub w3.2 w1.2 in
  let r := fsub (fmul s1 t2) (fmul s2 t1) in
  if flt (fmul r r) feps then Ok st
  else
    sd ← vdiv (vsub (vscale t2 u1) (vscale t1 u2)) r;
    td ← vdiv (vsub (vscale s1 u2) (vscale s2 u1)) r;
    '(sdir1, h1) ← iadd_cell (sdir st) i0 sd (t_heap st);
    '(sdir2, h2) ← iadd_cell sdir1 i1 sd h1;
    '(sdir3, h3) ← iadd_cell sdir2 i2 sd h2;
    '(tdir1, h4) ← iadd_cell (tdir st) i0 td h3;
    '(tdir2, h5) ← iadd_cell tdir1 i1 td h4;
    '(tdir3, h6) ← iadd_cell tdir2 i2 td h5;
    Ok {| t_heap := h6; sdir := sdir3; tdir := tdir3 |}.

(** The loops [for sm in submeshes: for tri in sm]. *)
Definition accumulate (verts : list Vec3) (uvs : list UV)
    (submeshes : list (list (list nat))) (st : TangentState)
  : result TangentState :=
  for_each (fun st sm => for_each (accumulate_tri verts uvs) sm st)
           submeshes st.

Definition enumerate {A} (l : list A) : list (nat * A) :=
  zip (seq 0 (length l)) l.

Definition hand_of (d : num) : num :=
  if flt d fzero then fneg_one else fone.

(** The body of [for i, n in enumerate(normals)]; [t -= ...] and
    [t.normalize()] change the object [sdir[i]] refers to.  [sdir] and
    [tdir] are not assigned, the state is the heap and [tangents]. *)
Definition tangent_step (sdir tdir : list nat)
    (st : list Vec3 * list (list num)) (ix : nat * Vec3)
  : result (list Vec3 * list (list num)) :=
  let '(h, tangents) := st in
  let '(i, n) := ix in
  t ← py_index sdir i;
  let h1 := heap_write h t
              (vsub (heap_read h t) (vscale (vdot (heap_read h t) n) n)) in
  let h2 := heap_write h1 t (vnormalize (heap_read h1 t)) in
  td ← py_index tdir i;
  let hand := hand_of (vdot (heap_read h2 t) (heap_read h2 td)) in
  Ok (h2, tangents ++ [vtuple (heap_read h2 t) ++ [hand]]).

Definition make_tangents (verts : list Vec3) (uvs : list UV)
    (normals : list Vec3) (submeshes : list (list (list nat)))
  : result (list (list num)) :=
  st ← accumulate verts uvs submeshes (tangent_init verts);
  '(_, tangents) ← for_each (tangent_step (sdir st) (tdir st))
                            (enumerate normals) (t_heap st, []);
  Ok tangents.

(** The quotient [v / s] when [s] is not zero. *)
Definition vscale_inv (a : Vec3) (s : num) : Vec3 :=
  let '(a1, a2, a3) := a in (fdiv a1 s, fdiv a2 s, fdiv a3 s).

(** The value held by cell [j] of [sdir] or [tdir]. *)
Definition cell_value (h : list Vec3) (cells : list nat) (j : nat) : option Vec3 :=
  l ← cells !! j; h !! l.

(** The state that [tangent_init] sets up and the loops keep: every cell
    of [sdir] refers to object 0, every cell of [tdir] to object 1. *)
Definition shared_cells (n : nat) (st : TangentState) : Prop :=
  sdir st = replicate n 0 /\ tdir st = replicate n 1 /\
  length (t_heap st) = 2.

(** A triangle of the index submeshes: three indices below [n]. *)
Definition tri_wf (n : nat) (tri : list nat) : Prop :=
  exists i0 i1 i2, tri = [i0; i1; i2] /\ i0 < n /\ i1 < n /\ i2 < n.

Definition tris_wf (n : nat) (submeshes : list (list (list nat))) : Prop :=
  Forall (Forall (tri_wf n)) submeshes.

(** A tangent entry: three components and the handedness, which is
    [-1.0] when the dot product of these components with [td] is
    negative and [1.0] otherwise. *)
Definition tangent_entry (td : Vec3) (e : list num) : Prop :=
  exists x y z,
    e = [x; y; z;
         if flt (fadd (fadd (fmul x td.1.1) (fmul y td.1.2)) (fmul z td.2))
                fzero
         then fneg_one else fone].

(** ** [make_mesh] *)

(** A [MuMesh] object: every attribute may be present or absent.  The
    class is defined in [mu.py]; which attributes a new instance has is
    the parameter [MuMesh_new]. *)
Record MuMesh := {
  mu_verts : option (list Vec3);
  mu_uvs : option (list UV);
  mu_uv2s : option (list UV);
  mu_normals : option (list Vec3);
  mu_tangents : option (list (list num));
  mu_submeshes : option (list (list (list nat)));
  mu_groups : option (list (list VertexGroupElement));
}.

Variable MuMesh_new : MuMesh.

Definition set_verts (v : list Vec3) (m : MuMesh) : MuMesh :=
  {| mu_verts := Some v; mu_uvs := mu_uvs m; mu_uv2s := mu_uv2s m;
     mu_normals := mu_normals m; mu_tangents := mu_tangents m;
     mu_submeshes := mu_submeshes m; mu_groups := mu_groups m |}.

Definition set_uvs (v : list UV) (m : MuMesh) : MuMesh :=
  {| mu_verts := mu_verts m; mu_uvs := Some v; mu_uv2s := mu_uv2s m;
     mu_normals := mu_normals m; mu_tangents := mu_tangents m;
     mu_submeshes := mu_submeshes m; mu_groups := mu_groups m |}.

Definition set_uv2s (v : list UV) (m : MuMesh) : MuMesh :=
  {| mu_verts := mu_verts m; mu_uvs := mu_uvs m; mu_uv2s := Some v;
     mu_normals := mu_normals m; mu_tangents := mu_tangents m;
     mu_submeshes := mu_submeshes m; mu_groups := mu_groups m |}.

Definition set_normals (v : list Vec3) (m : MuMesh) : MuMesh :=
  {| mu_verts := mu_verts m; mu_uvs := mu_uvs m; mu_uv2s := mu_uv2s m;
     mu_normals := Some v; mu_tangents := mu_tangents m;
     mu_submeshes := mu_submeshes m; mu_groups := mu_groups m |}.

Definition set_tangents (v : list (list num)) (m : MuMesh) : MuMesh :=
  {| mu_verts := mu_verts m; mu_uvs := mu_uvs m; mu_uv2s := mu_uv2s m;
     mu_normals := mu_normals m; mu_tangents := Some v;
     mu_submeshes := mu_submeshes m; mu_groups := mu_groups m |}.

Definition set_submeshes (v : list (list (list nat))) (m : MuMesh) : MuMesh :=
  {| mu_verts := mu_verts m; mu_uvs := mu_uvs m; mu_uv2s := mu_uv2s m;
     mu_normals := mu_normals m; mu_tangents := mu_tangents m;
     mu_submeshes := Some v; mu_groups := mu_groups m |}.

(** [mesh.groups = v] *)
Definition set_mesh_groups (v : list (list VertexGroupElement)) (m : Mesh)
  : Mesh :=
  {| polygons := polygons m; uv_layers := uv_layers m;
     mesh_vertices := mesh_vertices m; materials := materials m;
     mesh_groups := Some v |}.

(** The Blender object: [obj.to_mesh(...)] is the baked mesh, [obj.data]
    the mesh datablock, [obj.vertex_groups] the names of its groups. *)
Record BObject := {
  to_mesh : Mesh;
  data : Mesh;
  vertex_groups : list string;
}.

(** The truth value of a list. *)
Definition nonempty {A} (l : list A) : bool :=
  match l with [] => false | _ => true end.

(** [make_mesh] returns [mumesh]; the second component is the mesh object
    as the call leaves it.  Hiding and showing the modifiers around
    [obj.to_mesh] concerns the host only and is left out. *)
Definition make_mesh (obj : BObject) : result (MuMesh * Mesh) :=
  let mesh := to_mesh obj in
  let submeshes := build_submeshes mesh in
  submeshes ← make_tris mesh submeshes;
  let mumesh := MuMesh_new in
  '(vun, submeshes) ← make_verts mesh submeshes;
  let mumesh := set_verts (verts vun) mumesh in
  let uvs := uvs vun in
  let mumesh := set_normals (normals vun) mumesh in
  let mesh := set_mesh_groups (vgroups vun) mesh in
  mumesh ←
    (if nonempty uvs then
       mumesh ←
         (if bool_decide (0 < length uvs) then
            l ← map_result (fun uv => py_index uv 0) uvs;
            Ok (set_uvs l mumesh)
          else Ok mumesh);
       (if bool_decide (1 < length uvs) then
          l ← map_result (fun uv => py_index uv 1) uvs;
          Ok (set_uv2s l mumesh)
        else Ok mumesh)
     else Ok mumesh);
  let mumesh := set_submeshes submeshes mumesh in
  muvs ← get_attr (mu_uvs mumesh);
  mumesh ←
    (if nonempty muvs then
       mverts ← get_attr (mu_verts mumesh);
       mnormals ← get_attr (mu_normals mumesh);
       msub ← get_attr (mu_submeshes mumesh);
       t ← make_tangents mverts muvs mnormals msub;
       Ok (set_tangents t mumesh)
     else Ok mumesh);
  Ok (mumesh, mesh).

(** ** [mesh_materials] and [make_renderer] *)

(** The material record of the registry; the module reads its [index]. *)
Record MuMaterial := {
  index : nat;
}.

(** [mu.materials], the registry of material records by name. *)
Record Mu := {
  mu_materials : gmap string MuMaterial;
}.

(** [make_material] is defined in [export_mu/material.py]; it may change
    [mu] and may raise. *)
Variable make_material : Mu -> Material -> result (Mu * MuMaterial).

(** The body of [for mat in mesh.materials]. *)
Definition mesh_materials_step (st : Mu * list nat) (mat : Material)
  : result (Mu * list nat) :=
  let '(mu, materials) := st in
  if bool_decide (shaderName mat ≠ "") then
    mu ←
      (if bool_decide (mu_materials mu !! name mat = None) then
         '(mu', m) ← make_material mu mat;
         Ok {| mu_materials := <[name mat := m]> (mu_materials mu') |}
       else Ok mu);
    m ← dict_get (mu_materials mu) (name mat);
    Ok (mu, materials ++ [index m])
  else Ok st.

(** The local list [materials] when the loop ends. *)
Definition mesh_materials_collect (mu : Mu) (mesh : Mesh)
  : result (Mu * list nat) :=
  for_each mesh_materials_step (materials mesh) (mu, []).

(** The function body ends after the loop, without a [return]: the value
    of the call is Python's [None], here [None : option (list nat)]. *)
Definition mesh_materials (mu : Mu) (mesh : Mesh)
  : result (Mu * option (list nat)) :=
  '(mu', materials) ← mesh_materials_collect mu mesh;
  Ok (mu', None).

Record MuRenderer := {
  rend_materials : option (list nat);
}.

(** The truth value of a value that is [None] or a list. *)
Definition truthy {A} (v : option (list A)) : bool :=
  match v with
  | Some l => nonempty l
  | None => false
  end.

(** The second component is the value returned: [None] or [rend]. *)
Definition make_renderer (mu : Mu) (mesh : Mesh)
  : result (Mu * option MuRenderer) :=
  '(mu', v) ← mesh_materials mu mesh;
  let rend := {| rend_materials := v |} in
  if negb (truthy (rend_materials rend)) then Ok (mu', None)
  else Ok (mu', Some rend).

(** ** [mesh_bones] *)

(** [for i in n] with [n] an [int]: an [int] is not iterable. *)
Definition iter_int (n : nat) : result (list nat) := Raise TypeError.

(** [l - n] with [l] a list and [n] an [int]: no such operation. *)
Definition list_minus_int {A} (l : list A) (n : nat) : result (list A) :=
  Raise TypeError.

(** [weights.sort(key=lambda w: w[1])]: a stable ascending sort that
    compares keys with [<]. *)
Fixpoint insert_by_weight (x : nat * num) (l : list (nat * num))
  : list (nat * num) :=
  match l with
  | [] => [x]
  | y :: l' => if flt y.2 x.2
               then y :: insert_by_weight x l'
               else x :: l
  end.

Definition sort_by_weight (l : list (nat * num)) : list (nat * num) :=
  foldr insert_by_weight [] l.

(** The body of [for grp in obj.vertex_groups]. *)
Definition bones_step (boneset : gset string)
    (st : list string * gmap string nat) (grp : string)
  : list string * gmap string nat :=
  let '(bones, boneindices) := st in
  if bool_decide (grp ∈ boneset)
  then (bones ++ [grp], <[grp := length bones]> boneindices)
  else st.

(** The body of [for vgrp in mumesh.groups]; the result is the list that
    is printed. *)
Definition vertex_weights (obj : BObject) (boneindices : gmap string nat)
    (vgrp : list VertexGroupElement) : result (list (nat * num)) :=
  idx ← iter_int (length vgrp);
  weights ←
    for_each
      (fun weights i =>
         e ← py_index vgrp i;
         gname ← py_index (vertex_groups obj) (group e);
         if bool_decide (is_Some (boneindices !! gname)) then
           b ← dict_get boneindices gname;
           e' ← py_index vgrp i;
           Ok (weights ++ [(b, weight e')])
         else Ok weights)
      idx [];
  let weights := rev (sort_by_weight weights) in
  if bool_decide (length weights < 4) then
    pad ← list_minus_int (replicate 4 (0, fzero)) (length weights);
    Ok (weights ++ pad)
  else Ok weights.

(** Returns [bones]; the second component is what [print] wrote, one
    list per vertex. *)
Definition mesh_bones (obj : BObject) (mumesh : MuMesh)
    (armature : list string)
  : result (list string * list (list (nat * num))) :=
  let boneset : gset string := list_to_set armature in
  let '(bones, boneindices) :=
    foldl (bones_step boneset) ([], ∅) (vertex_groups obj) in
  vgroups ← get_attr (mu_groups mumesh);
  printed ← map_result (vertex_weights obj boneindices) vgroups;
  Ok (bones, printed).

(** ** [handle_mesh] and [handle_skinned_mesh] *)

(** The names bound in the module when its body has run: the imports and
    the definitions. *)
Definition module_globals : list string :=
  ["bpy"; "Vector"; "MuMesh"; "MuRenderer"; "collect_modifiers";
   "make_material"; "export"; "split_face"; "build_submeshes";
   "make_tris"; "make_verts"; "make_tangents"; "make_mesh";
   "mesh_materials"; "make_renderer"; "mesh_bones"; "handle_mesh";
   "handle_skinned_mesh"; "type_handlers"].

(** The builtins the module refers to. *)
Definition builtins_used : list string :=
  ["list"; "map"; "tuple"; "len"; "range"; "enumerate"; "set"; "print";
   "hasattr"; "delattr"].

(** The lookup of a name that is not local to the function. *)
Definition load_global (n : string) : result unit :=
  if bool_decide (n ∈ module_globals ++ builtins_used) then Ok ()
  else Raise NameError.

Record MuSkinnedMeshRenderer := {
  smr_mesh : MuMesh;
  smr_bones : list string;
  smr_materials : option (list nat);
}.

(** The attributes of [muobj] the handlers set or delete: [None] is an
    absent attribute; the value of [renderer] may itself be [None]. *)
Record MuObject := {
  shared_mesh : option MuMesh;
  renderer : option (option MuRenderer);
  skinned_mesh_renderer : option MuSkinnedMeshRenderer;
}.

(** Returns [muobj], with [mu] and the baked mesh as the call leaves them. *)
Definition handle_mesh (obj : BObject) (muobj : MuObject) (mu : Mu)
  : result (MuObject * Mu * Mesh) :=
  '(mumesh, mesh) ← make_mesh obj;
  '(mu', rend) ← make_renderer mu (data obj);
  Ok ({| shared_mesh := Some mumesh;
         renderer := Some rend;
         skinned_mesh_renderer := skinned_mesh_renderer muobj |},
      mu', mesh).

Definition handle_skinned_mesh (obj : BObject) (muobj : MuObject) (mu : Mu)
    (armature : list string) : result (MuObject * Mu * Mesh) :=
  _ ← load_global "MuSkinnedMeshRenderer";
  '(mumesh, mesh) ← make_mesh obj;
  '(bones, _) ← mesh_bones obj mumesh armature;
  '(mu', mats) ← mesh_materials mu (data obj);
  let smr := {| smr_mesh := mumesh; smr_bones := bones;
                smr_materials := mats |} in
  Ok ({| shared_mesh := None;
         renderer := None;
         skinned_mesh_renderer := Some smr |},
      mu', mesh).

End Model.

(** ** Rational numbers as floats, for the examples

    The operations are exact; [vnormalize] divides by the sum of the
    absolute values, which gives a unit vector for a vector along an
    axis and leaves the zero vector as it is. *)

#[global] Instance Q_eq_dec : EqDecision Q.
Proof. solve_decision. Defined.

#[global] Instance Q_countable : Countable Q :=
  inj_countable' (fun q => (Qnum q, Qden q)) (fun p => Qmake p.1 p.2)
                 (fun q => match q with Qmake _ _ => eq_refl end).

Definition Q_normalize (v : Q * Q * Q) : Q * Q * Q :=
  let '(x, y, z) := v in
  let n := Qred (Qabs x + Qabs y + Qabs z)%Q in
  if Qeq_bool n 0 then v
  else (Qred (x / n)%Q, Qred (y / n)%Q, Qred (z / n)%Q).

#[global] Instance Q_ops : FloatOps Q := {|
  fzero := 0%Q;
  fone := 1%Q;
  fneg_one := (-1)%Q;
  feps := (1 # 1000000)%Q;
  fadd := fun a b => Qred (a + b)%Q;
  fsub := fun a b => Qred (a - b)%Q;
  fmul := fun a b => Qred (a * b)%Q;
  fdiv := fun a b => Qred (a / b)%Q;
  flt := fun a b => negb (Qle_bool b a);
  fis_zero := fun a => Qeq_bool a 0;
  vnormalize := Q_normalize;
|}.

(** ** Example inputs, over the rationals *)

(** A quad with one uv layer. *)
Definition quad_face : MeshPolygon :=
  {| loop_start := 0; loop_total := 4; vertices := [10; 11; 12; 13] |}.

Definition quad_mesh : Mesh (num:=Q) :=
  {| polygons := [quad_face];
     uv_layers := [[(0, 0); (1, 0); (1, 1); (0, 1)]%Q];
     mesh_vertices := []; materials := []; mesh_groups := None |}.

(** A triangle in the plane [z = 0] with two uv layers. *)
Definition flat_vertex (x y : Q) : MeshVertex (num:=Q) :=
  {| co := (x, y, 0%Q); normal := (0, 0, 1)%Q; groups := [] |}.

Definition tri_face : MeshPolygon :=
  {| loop_start := 0; loop_total := 3; vertices := [0; 1; 2] |}.

Definition tri_mesh : Mesh (num:=Q) :=
  {| polygons := [tri_face];
     uv_layers := [[(0, 0); (1, 0); (0, 1)]%Q; [(0, 0); (1, 0); (0, 1)]%Q];
     mesh_vertices := [flat_vertex 0 0; flat_vertex 1 0; flat_vertex 0 1];
     materials := []; mesh_groups := None |}.

Definition tri_corners : list (CornerKey (num:=Q)) :=
  [(0, [(0, 0)%Q; (0, 0)%Q]); (1, [(1, 0)%Q; (1, 0)%Q]);
   (2, [(0, 1)%Q; (0, 1)%Q])].

(** The same triangle in two submeshes. *)
Definition two_submeshes : list (list (list (CornerKey (num:=Q)))) :=
  [[tri_corners]; [tri_corners]].

(** Four vertices, of which the triangle [[0; 1; 2]] uses three. *)
Definition tan_verts : list (Vec3 (num:=Q)) :=
  [(0, 0, 0)%Q; (1, 0, 0)%Q; (0, 1, 0)%Q; (5, 5, 5)%Q].

Definition tan_uvs : list (UV (num:=Q)) :=
  [(0, 0)%Q; (1, 0)%Q; (0, 1)%Q; (0, 0)%Q].

Definition tan_normals : list (Vec3 (num:=Q)) := replicate 4 (0, 0, 1)%Q.

(** A uv mapping of zero area: [w1 = w2 = w3]. *)
Definition flat_uvs : list (UV (num:=Q)) := replicate 4 (0, 0)%Q.

(** A [MuMesh] instance without any attribute. *)
Definition MuMesh_bare : MuMesh (num:=Q) :=
  {| mu_verts := None; mu_uvs := None; mu_uv2s := None; mu_normals := None;
     mu_tangents := None; mu_submeshes := None; mu_groups := None |}.

Definition tri_object : BObject (num:=Q) :=
  {| to_mesh := tri_mesh; data := tri_mesh; vertex_groups := [] |}.

(** A registry that holds the material [hull], and a mesh that uses it. *)
Definition hull_registry : Mu :=
  {| mu_materials := {[ "hull" := {| index := 0 |} ]} |}.

Definition hull_mesh : Mesh (num:=Q) :=
  {| polygons := []; uv_layers := []; mesh_vertices := [];
     materials := [{| name := "hull"; shaderName := "KSP/Diffuse" |}];
     mesh_groups := None |}.

Definition next_material (mu : Mu) (mat : Material)
  : result (Mu * MuMaterial) :=
  Ok (mu, {| index := size (mu_materials mu) |}).

(** A vertex weighted by the groups [A], [B] and [C], of which [A] and
    [B] are bones, on a [MuMesh] that does have [groups]. *)
Definition skin_object : BObject (num:=Q) :=
  {| to_mesh := tri_mesh; data := tri_mesh; vertex_groups := ["A"; "B"; "C"] |}.

Definition skin_mumesh : MuMesh (num:=Q) :=
  {| mu_verts := None; mu_uvs := None; mu_uv2s := None; mu_normals := None;
     mu_tangents := None; mu_submeshes := None;
     mu_groups := Some [[ {| group := 0; weight := (7 # 10)%Q |};
                          {| group := 1; weight := (2 # 10)%Q |};
                          {| group := 2; weight := (1 # 10)%Q |} ]] |}.

(** ** Further vocabulary *)

Section Vocabulary.
Context {num : Type} `{Countable num}.
Implicit Types (mesh : Mesh (num:=num)).

(** Each uv layer that [split_face] reads has, in the slice of the face,
    a loop for every vertex of the face. *)
Definition face_covered mesh (face : MeshPolygon) : Prop :=
  Forall (fun layer : list (UV (num:=num)) =>
            length (vertices face)
            <= length (py_slice layer (loop_start face)
                                (loop_start face + loop_total face)))
         (take 2 (uv_layers mesh)).

(** The faces of three or more vertices are covered by the uv layers. *)
Definition faces_covered mesh : Prop :=
  Forall (fun face => 3 <= length (vertices face) -> face_covered mesh face)
         (polygons mesh).

(** The faces name vertices of the mesh. *)
Definition faces_in_range mesh : Prop :=
  Forall (fun face =>
            Forall (fun v => v < length (mesh_vertices mesh)) (vertices face))
         (polygons mesh).

(** The stream holds at index [i] the data of the corner [k]: position,
    normal and bone-group references of the vertex [k.1] of the mesh, and
    the uvs [k.2] of the corner. *)
Definition stream_entry mesh (vs : VertexStream (num:=num))
    (k : CornerKey (num:=num)) (i : nat) : Prop :=
  exists mv,
    mesh_vertices mesh !! k.1 = Some mv /\
    verts vs !! i = Some (co mv) /\
    normals vs !! i = Some (normal mv) /\
    uvs vs !! i = Some k.2 /\
    vgroups vs !! i = Some (groups mv).

(** The stream [vs'] extends the stream [vs]. *)
Definition stream_prefix (vs vs' : VertexStream (num:=num)) : Prop :=
  verts vs `prefix_of` verts vs' /\
  normals vs `prefix_of` normals vs' /\
  uvs vs `prefix_of` uvs vs' /\
  vgroups vs `prefix_of` vgroups vs'.

(** The invariant of the loops over one submesh that relates the dict
    to the stream: a key of the dict has its data at its index, and
    every index from [lo] on belongs to a key. *)
Definition content_inv mesh (lo : nat) (st : DedupState (num:=num)) : Prop :=
  (forall (k : CornerKey) i, st.2 !! k = Some i -> stream_entry mesh st.1 k i) /\
  (forall i, lo <= i < length (verts st.1) ->
             exists k : CornerKey, st.2 !! k = Some i).

End Vocabulary.

(** The indices that the registry [reg] holds for the slots with a
    shader, in slot order. *)
Fixpoint registered_indices (reg : gmap string MuMaterial)
    (mats : list Material) : list nat :=
  match mats with
  | [] => []
  | mat :: mats' =>
      if bool_decide (shaderName mat ≠ "") then
        match reg !! name mat with
        | Some m => index m :: registered_indices reg mats'
        | None => registered_indices reg mats'
        end
      else registered_indices reg mats'
  end.

(** Every slot with a shader has its material in the registry. *)
Definition all_registered (reg : gmap string MuMaterial)
    (mats : list Material) : Prop :=
  Forall (fun mat => shaderName mat ≠ "" -> is_Some (reg !! name mat)) mats.

(** [make_material] keeps the records that the registry holds. *)
Definition keeps_registry
    (make_material : Mu -> Material -> result (Mu * MuMaterial)) : Prop :=
  forall mu mat mu' m,
    make_material mu mat = Ok (mu', m) -> mu_materials mu ⊆ mu_materials mu'.

(** A triangle with one uv layer, and an empty registry. *)
Definition single_uv_mesh : Mesh (num:=Q) :=
  {| polygons := [tri_face];
     uv_layers := [[(0, 0); (1, 0); (0, 1)]%Q];
     mesh_vertices := [flat_vertex 0 0; flat_vertex 1 0; flat_vertex 0 1];
     materials := []; mesh_groups := None |}.

Definition single_uv_object : BObject (num:=Q) :=
  {| to_mesh := single_uv_mesh; data := single_uv_mesh; vertex_groups := [] |}.

Definition empty_registry : Mu := {| mu_materials := ∅ |}.

(** A [MuMesh] that has [groups], for a mesh without vertices. *)
Definition no_vertex_mumesh : MuMesh (num:=Q) :=
  {| mu_verts := None; mu_uvs := None; mu_uv2s := None; mu_normals := None;
     mu_tangents := None; mu_submeshes := None; mu_groups := Some [] |}.

(** A triangle that [make_tangents] can read: it has three entries or
    more, and its first three are positions of [verts] (of length [nv])
    and of [uvs] (of length [nu]). *)
Definition tri_in_range (nv nu : nat) (tri : list nat) : Prop :=
  exists i0 i1 i2 rest,
    tri = i0 :: i1 :: i2 :: rest /\
    (i0 < nv /\ i1 < nv /\ i2 < nv) /\ (i0 < nu /\ i1 < nu /\ i2 < nu).

(** * Properties *)

(** ** Results, indexing and loops *)

Lemma bind_Ok {A B} (f : A -> result B) (m : result A) (b : B) :
  m ≫= f = Ok b <-> exists a, m = Ok a /\ f a = Ok b.
Proof.
  destruct m as [a|e]; simpl; split.
  - intros Hf. exists a. auto.
  - intros (a' & Ha & Hf). congruence.
  - discriminate.
  - intros (a' & Ha & _). discriminate.
Qed.

Lemma py_index_Ok {A} (l : list A) i x :
  py_index l i = Ok x <-> l !! i = Some x.
Proof. unfold py_index. destruct (l !! i); split; congruence. Qed.

Lemma py_index_lt {A} (l : list A) i :
  i < length l -> is_Ok (py_index l i).
Proof.
  intros Hi. unfold py_index, is_Ok.
  destruct (lookup_lt_is_Some_2 l i Hi) as [x ->]. eauto.
Qed.

Lemma py_slice_lookup {A} (l : list A) s e i :
  i < e - s -> py_slice l s e !! i = l !! (s + i).
Proof.
  intros Hi. unfold py_slice. rewrite lookup_take_lt by done.
  by rewrite lookup_drop.
Qed.

Lemma map_result_Ok {X Y} (f : X -> result Y) xs ys :
  map_result f xs = Ok ys <-> Forall2 (fun x y => f x = Ok y) xs ys.
Proof.
  revert ys. induction xs as [|x xs IH]; intros ys; simpl.
  - split; [intros [= <-]; constructor|by inversion 1].
  - rewrite bind_Ok. split.
    + intros (y & Hy & (ys' & Hys & [= <-])%bind_Ok).
      constructor; [done|by apply IH].
    + inversion 1 as [|? y ? ys' Hy Hys]; subst.
      exists y. split; [done|]. apply bind_Ok. exists ys'.
      split; [by apply IH|done].
Qed.

Lemma map_result_total {X Y} (f : X -> result Y) xs :
  Forall (fun x => is_Ok (f x)) xs -> is_Ok (map_result f xs).
Proof.
  induction 1 as [|x xs [y Hy] _ [ys Hys]]; simpl.
  - by exists [].
  - rewrite Hy; simpl. rewrite Hys; simpl. by eexists.
Qed.

Lemma map_result_length {X Y} (f : X -> result Y) xs ys :
  map_result f xs = Ok ys -> length ys = length xs.
Proof. intros Hm%map_result_Ok. symmetry. by eapply Forall2_length. Qed.

Lemma for_each_app {S X} (body : S -> X -> result S) xs ys st :
  for_each body (xs ++ ys) st = for_each body xs st ≫= for_each body ys.
Proof.
  revert st. induction xs as [|x xs IH]; intros st; simpl; [done|].
  destruct (body st x) as [st'|e]; simpl; [apply IH|done].
Qed.

(** A property of the loop state that every iteration keeps holds when
    the loop ends. *)
Lemma for_each_inv {S X} (P : S -> Prop) (body : S -> X -> result S) xs :
  (forall st x st', x ∈ xs -> P st -> body st x = Ok st' -> P st') ->
  forall st st', P st -> for_each body xs st = Ok st' -> P st'.
Proof.
  induction xs as [|x xs IH]; intros Hb st st' HP; simpl.
  - intros [= <-]. done.
  - intros (st1 & H1 & H2)%bind_Ok.
    apply (IH (fun st x st' Hin => Hb st x st' (list_elem_of_further _ _ _ Hin))
              st1 st'); [|done].
    eapply Hb; [apply list_elem_of_here|done..].
Qed.

(** A loop whose iterations do not raise from a state that satisfies the
    invariant runs to its end. *)
Lemma for_each_total {S X} (P : S -> Prop) (body : S -> X -> result S) xs :
  (forall st x, x ∈ xs -> P st -> exists st', body st x = Ok st' /\ P st') ->
  forall st, P st -> exists st', for_each body xs st = Ok st' /\ P st'.
Proof.
  induction xs as [|x xs IH]; intros Hb st HP; simpl.
  - eauto.
  - destruct (Hb st x) as (st1 & -> & HP1); [apply list_elem_of_here|done|].
    simpl. apply IH; [|done].
    intros ? ? Hin. apply Hb. by apply list_elem_of_further.
Qed.

Lemma map_accum_Ok_cons {S X Y} (body : S -> X -> result (S * Y)) st x xs r :
  map_accum body st (x :: xs) = Ok r <->
  exists st1 y st2 ys,
    body st x = Ok (st1, y) /\ map_accum body st1 xs = Ok (st2, ys) /\
    r = (st2, y :: ys).
Proof.
  simpl. rewrite bind_Ok. split.
  - intros ([st1 y] & Hb & ([st2 ys] & Hm & [= <-])%bind_Ok).
    by exists st1, y, st2, ys.
  - intros (st1 & y & st2 & ys & Hb & Hm & ->).
    exists (st1, y). split; [done|]. simpl. by rewrite Hm.
Qed.

(** The invariant scheme for [map_accum]: [P] is kept by the state, [R]
    relates a state to every later one, and the relation [Q] between an
    element and its output, once established, survives later steps. *)
Lemma map_accum_inv {S X Y} (P : S -> Prop) (R : S -> S -> Prop)
    (Q : S -> X -> Y -> Prop) (body : S -> X -> result (S * Y)) :
  (forall st, R st st) ->
  (forall s1 s2 s3, R s1 s2 -> R s2 s3 -> R s1 s3) ->
  (forall s1 s2 x y, R s1 s2 -> Q s1 x y -> Q s2 x y) ->
  forall xs,
  (forall st x st' y, x ∈ xs -> P st -> body st x = Ok (st', y) ->
                      P st' /\ R st st' /\ Q st' x y) ->
  forall st st' ys, P st -> map_accum body st xs = Ok (st', ys) ->
    P st' /\ R st st' /\ Forall2 (Q st') xs ys.
Proof.
  intros Hrefl Htrans Hmono xs.
  induction xs as [|x xs IH]; intros Hb st st' ys HP.
  - intros [= <- <-]. auto.
  - intros (st1 & y & st2 & ys' & Hx & Hxs & [= -> ->])%map_accum_Ok_cons.
    destruct (Hb st x st1 y) as (HP1 & HR1 & HQ1);
      [apply list_elem_of_here|done..|].
    destruct (IH (fun st x st' y Hin =>
                    Hb st x st' y (list_elem_of_further _ _ _ Hin))
                 st1 st2 ys' HP1 Hxs) as (HP2 & HR2 & HQ2).
    split; [done|]. split; [by eapply Htrans|].
    constructor; [by eapply Hmono|done].
Qed.

Lemma map_accum_total {S X Y} (P : S -> Prop)
    (body : S -> X -> result (S * Y)) xs :
  (forall st x, x ∈ xs -> P st ->
                exists st' y, body st x = Ok (st', y) /\ P st') ->
  forall st, P st -> exists st' ys, map_accum body st xs = Ok (st', ys) /\ P st'.
Proof.
  induction xs as [|x xs IH]; intros Hb st HP; simpl.
  - eauto.
  - destruct (Hb st x) as (st1 & y & -> & HP1);
      [apply list_elem_of_here|done|].
    simpl.
    destruct (IH (fun st x Hin => Hb st x (list_elem_of_further _ _ _ Hin))
                 st1 HP1) as (st2 & ys & -> & HP2).
    simpl. eauto.
Qed.

(** ** The face splitter *)

Section FaceSplitter.
Context {num : Type} `{Countable num}.
Implicit Types (mesh : Mesh (num:=num)) (face : MeshPolygon).

Lemma map_result_slices (L : list (list (UV (num:=num)))) s t k :
  k < t ->
  map_result (fun l => py_index l k)
             (map (fun layer => py_slice layer s (s + t)) L)
  = match mapM (fun layer : list UV => layer !! (s + k)) L with
    | Some c => Ok c
    | None => Raise IndexError
    end.
Proof.
  intros Hk. induction L as [|l L IH]; simpl; [done|].
  assert (py_index (py_slice l s (s + t)) k = py_index l (s + k)) as ->.
  { unfold py_index. by rewrite py_slice_lookup by lia. }
  rewrite IH. unfold py_index.
  destruct (l !! (s + k)) as [x|]; simpl; [|done].
  by destruct (mapM _ L).
Qed.

Lemma corner_face_corner mesh face k :
  k < loop_total face ->
  corner (vertices face)
         (map (fun layer => py_slice layer (loop_start face)
                              (loop_start face + loop_total face))
              (take 2 (uv_layers mesh))) k
  = match face_corner mesh face k with
    | Some c => Ok c
    | None => Raise IndexError
    end.
Proof.
  intros Hk. unfold corner, face_corner.
  rewrite map_result_slices by done. unfold py_index.
  destruct (vertices face !! k) as [v|]; simpl; [|done].
  by destruct (mapM _ _).
Qed.

Lemma face_corner_is_Some mesh face k :
  face_wf mesh face -> k < length (vertices face) ->
  is_Some (face_corner mesh face k).
Proof.
  intros [Hlen Hlayers] Hk. unfold face_corner.
  destruct (lookup_lt_is_Some_2 _ _ Hk) as [v ->]. simpl.
  assert (is_Some (mapM (fun layer : list (UV (num:=num)) =>
                           layer !! (loop_start face + k))
                        (take 2 (uv_layers mesh)))) as [c ->]; [|by eexists].
  induction Hlayers as [|l L Hl _ [c Hc]]; simpl; [by eexists|].
  destruct (lookup_lt_is_Some_2 l (loop_start face + k)) as [x ->]; [lia|].
  simpl. rewrite Hc. by eexists.
Qed.

(** The triangle that the iteration [i] of the loop appends. *)
Lemma split_face_iteration mesh face i :
  face_wf mesh face -> 1 <= i -> i + 1 < length (vertices face) ->
  exists c0 ci cj,
    face_corner mesh face 0 = Some c0 /\
    face_corner mesh face i = Some ci /\
    face_corner mesh face (i + 1) = Some cj /\
    (let uv := map (fun layer => py_slice layer (loop_start face)
                                   (loop_start face + loop_total face))
                   (take 2 (uv_layers mesh)) in
     c0 ← corner (vertices face) uv 0;
     c1 ← corner (vertices face) uv i;
     c2 ← corner (vertices face) uv (i + 1);
     Ok [c0; c1; c2]) = Ok [c0; ci; cj].
Proof.
  intros Hwf Hi Hlen. pose proof Hwf as [Hle _].
  destruct (face_corner_is_Some mesh face 0 Hwf) as [c0 H0]; [lia|].
  destruct (face_corner_is_Some mesh face i Hwf) as [ci H1]; [lia|].
  destruct (face_corner_is_Some mesh face (i + 1) Hwf) as [cj H2]; [lia|].
  exists c0, ci, cj. repeat split; try done. cbv zeta.
  rewrite !corner_face_corner by lia. by rewrite H0, H1, H2.
Qed.

(** C7, as the code has it: the face splitter returns [N - 2] triangles
    for a face of [N >= 3] vertices, and for [i] in [1 .. N-2] the
    triangle number [i] is (corner 0, corner [i], corner [i+1]); every
    triangle starts at corner 0 and keeps the winding of the face. *)
Theorem split_face_fan mesh index face :
  polygons mesh !! index = Some face ->
  3 <= length (vertices face) ->
  face_wf mesh face ->
  exists tris,
    split_face mesh index = Ok tris /\
    length tris = length (vertices face) - 2 /\
    forall i, 1 <= i <= length (vertices face) - 2 ->
      exists c0 ci cj,
        face_corner mesh face 0 = Some c0 /\
        face_corner mesh face i = Some ci /\
        face_corner mesh face (i + 1) = Some cj /\
        tris !! (i - 1) = Some [c0; ci; cj].
Proof.
  intros Hface HN Hwf. unfold split_face, py_index. rewrite Hface. simpl.
  match goal with |- context [map_result ?f ?xs] =>
    set (body := f); set (range := xs) end.
  assert (is_Ok (map_result body range)) as [tris Htris].
  { apply map_result_total, Forall_forall. intros i Hi.
    apply list_elem_of_In, in_seq in Hi.
    destruct (split_face_iteration mesh face i Hwf) as (c0 & ci & cj & _ & _ & _ & Hb);
      [lia..|].
    eexists. exact Hb. }
  exists tris. split; [done|].
  pose proof (map_result_length _ _ _ Htris) as Hlen.
  subst range. rewrite length_seq in Hlen. split; [done|].
  intros i Hi.
  destruct (split_face_iteration mesh face i Hwf)
    as (c0 & ci & cj & H0 & H1 & H2 & Hb); [lia..|].
  exists c0, ci, cj. repeat split; try done.
  apply map_result_Ok in Htris.
  destruct (lookup_lt_is_Some_2 tris (i - 1)) as [tri Htri]; [lia|].
  assert (seq 1 (length (vertices face) - 2) !! (i - 1) = Some i) as Hseq.
  { rewrite lookup_seq. split; [f_equal|]; lia. }
  pose proof (Forall2_lookup_lr _ _ _ _ _ _ Htris Hseq Htri) as Hbody.
  subst body. simpl in Hbody. rewrite Htri. f_equal.
  cbv zeta in Hb. rewrite Hb in Hbody. congruence.
Qed.

(** Every triangle that [split_face] returns has three corners. *)
Lemma split_face_triangles mesh index tris :
  split_face mesh index = Ok tris -> Forall (fun tri => length tri = 3) tris.
Proof.
  unfold split_face. intros (face & _ & Hmap)%bind_Ok.
  apply map_result_Ok in Hmap.
  eapply Forall2_Forall_r; [exact Hmap|].
  apply Forall_forall. intros i _ tri.
  intros (c0 & _ & (c1 & _ & (c2 & _ & [= <-])%bind_Ok)%bind_Ok)%bind_Ok.
  reflexivity.
Qed.

End FaceSplitter.

(** ** The vertex deduplicator *)

Section Deduplicator.
Context {num : Type} `{Countable num}.
Implicit Types (mesh : Mesh (num:=num)) (vs : VertexStream (num:=num)).
Implicit Types (d : gmap (CornerKey (num:=num)) nat).
Implicit Types (k : CornerKey (num:=num)).
Implicit Types (sm : list (list (CornerKey (num:=num)))).
Implicit Types (st : DedupState (num:=num)).
Implicit Types (sms : list (list (list (CornerKey (num:=num))))).

Lemma dedup_corner_spec mesh lo K st k st' i :
  k ∈ K -> dict_inv lo K st ->
  dedup_corner mesh st k = Ok (st', i) ->
  dict_inv lo K st' /\ dict_le st st' /\ st'.2 !! k = Some i.
Proof.
  destruct st as [vs d]. intros HK (Hal & Hlen & Hdom & Hrng & Hinj).
  simpl in *. unfold dedup_corner. case_decide as Hk.
  - intros ([vs1 d1] & (mv & Hmv & [= <- <-])%bind_Ok &
            (i' & Hget & [= <- <-])%bind_Ok)%bind_Ok.
    simpl in *. unfold dict_get in Hget.
    rewrite lookup_insert_eq in Hget. injection Hget as <-.
    assert (size (<[k:=length (verts vs)]> d) = S (size d)) as Hsz
      by by apply map_size_insert_None.
    split; [|split].
    + destruct Hal as (Hn & Hu & Hg).
      unfold dict_inv, stream_aligned; simpl.
      rewrite !length_app, Hsz; simpl.
      split; [lia|]. split; [lia|]. split.
      { rewrite dom_insert_L.
        apply union_least; [by apply singleton_subseteq_l|done]. }
      split.
      * intros k' i'. rewrite lookup_insert. case_decide.
        -- intros [= <-]. lia.
        -- intros Hi%Hrng. lia.
      * intros k1 k2 i'. rewrite !lookup_insert.
        repeat case_decide; subst; try done.
        -- intros [= <-] Hi%Hrng. lia.
        -- intros Hi%Hrng [= <-]. lia.
        -- apply Hinj.
    + unfold dict_le. simpl. by apply insert_subseteq.
    + simpl. by rewrite lookup_insert_eq.
  - intros ([vs1 d1] & [= <- <-] & (i' & Hget & [= <- <-])%bind_Ok)%bind_Ok.
    simpl in *. unfold dict_get in Hget.
    destruct (d !! k) as [j|] eqn:Hj; [|done]. injection Hget as ->.
    split; [by unfold dict_inv|]. split; [|done].
    unfold dict_le. reflexivity.
Qed.

Lemma dedup_corner_total mesh st k :
  k.1 < length (mesh_vertices mesh) -> is_Ok (dedup_corner mesh st k).
Proof.
  destruct st as [vs d]. intros Hk. unfold dedup_corner.
  destruct (py_index_lt (mesh_vertices mesh) k.1 Hk) as [mv Hmv].
  case_decide as Hd.
  - rewrite Hmv. simpl. unfold dict_get. rewrite lookup_insert_eq.
    by eexists.
  - simpl. unfold dict_get. destruct (d !! k); [by eexists|done].
Qed.

Lemma dict_le_lookup st st' k i :
  dict_le st st' -> st.2 !! k = Some i -> st'.2 !! k = Some i.
Proof. unfold dict_le. intros Hle Hl. by eapply lookup_weaken. Qed.

Lemma dict_le_refl st : dict_le st st.
Proof. unfold dict_le. reflexivity. Qed.

Lemma dict_le_trans st1 st2 st3 :
  dict_le st1 st2 -> dict_le st2 st3 -> dict_le st1 st3.
Proof. unfold dict_le. intros. by etrans. Qed.

Lemma dedup_tri_spec mesh lo K st ft st' tv :
  Forall (fun k => k ∈ K) ft -> dict_inv lo K st ->
  dedup_tri mesh st ft = Ok (st', tv) ->
  dict_inv lo K st' /\ dict_le st st' /\
  Forall2 (fun k i => st'.2 !! k = Some i) ft tv.
Proof.
  intros HK Hinv Hrun. unfold dedup_tri in Hrun.
  eapply (map_accum_inv (dict_inv lo K) dict_le
            (fun st k i => st.2 !! k = Some i));
    [apply dict_le_refl|apply dict_le_trans| | |exact Hinv|exact Hrun].
  - intros s1 s2 k i Hle. by apply dict_le_lookup.
  - intros s k s1 i Hin Hs. apply dedup_corner_spec; [|done].
    by eapply Forall_forall in HK.
Qed.

Lemma dedup_tris_spec mesh lo K st sm st' ism :
  Forall (Forall (fun k => k ∈ K)) sm -> dict_inv lo K st ->
  map_accum (dedup_tri mesh) st sm = Ok (st', ism) ->
  dict_inv lo K st' /\ dict_le st st' /\
  Forall2 (Forall2 (fun k i => st'.2 !! k = Some i)) sm ism.
Proof.
  intros HK Hinv Hrun.
  eapply (map_accum_inv (dict_inv lo K) dict_le
            (fun st ft tv => Forall2 (fun k i => st.2 !! k = Some i) ft tv));
    [apply dict_le_refl|apply dict_le_trans| | |exact Hinv|exact Hrun].
  - intros s1 s2 ft tv Hle Hft.
    eapply Forall2_impl; [done|]. intros k i. by apply dict_le_lookup.
  - intros s ft s1 tv Hin Hs. apply dedup_tri_spec; [|done].
    by eapply Forall_forall in HK.
Qed.

Lemma elem_of_concat {A} (x : A) (ls : list (list A)) :
  x ∈ concat ls <-> exists l, l ∈ ls /\ x ∈ l.
Proof.
  rewrite list_elem_of_In, in_concat.
  split; intros (l & Hl & Hx); exists l; by rewrite ?list_elem_of_In in *.
Qed.

Lemma submesh_keys_spec (sm : list (list (CornerKey (num:=num)))) k :
  k ∈ submesh_keys sm <-> exists ft, ft ∈ sm /\ k ∈ ft.
Proof. unfold submesh_keys. by rewrite elem_of_list_to_set, elem_of_concat. Qed.

(** One submesh: the stream grows by one vertex per distinct key. *)
Lemma dedup_submesh_spec mesh vs sm vs' ism :
  stream_aligned vs ->
  dedup_submesh mesh vs sm = Ok (vs', ism) ->
  stream_aligned vs' /\
  exists d, submesh_dict (length (verts vs)) sm ism d /\
            length (verts vs') = length (verts vs) + size d.
Proof.
  intros Hal ([[vs1 d] ism1] & Hrun & [= <- <-])%bind_Ok.
  destruct (dedup_tris_spec mesh (length (verts vs)) (submesh_keys sm)
              (vs, ∅) sm (vs1, d) ism1) as ((Hal1 & Hlen & Hdom & Hrng & Hinj) & _ & Hout);
    [| |done|].
  - apply Forall_forall. intros ft Hft. apply Forall_forall. intros k Hk.
    apply submesh_keys_spec. eauto.
  - unfold dict_inv; simpl. rewrite map_size_empty, dom_empty_L.
    split; [done|]. split; [lia|]. split; [set_solver|].
    split; [intros k i|intros k1 k2 i]; by rewrite lookup_empty.
  - simpl in *. split; [done|]. exists d. split; [|done].
    split; [|split; [exact Hrng|split; [exact Hinj|exact Hout]]].
    apply set_eq. intros k. split; [by apply Hdom|].
    intros (ft & Hft & Hk)%submesh_keys_spec.
    apply list_elem_of_lookup in Hft as [t Ht].
    apply list_elem_of_lookup in Hk as [c Hc].
    destruct (Forall2_lookup_l _ _ _ _ _ Hout Ht) as (tv & _ & Htv).
    destruct (Forall2_lookup_l _ _ _ _ _ Htv Hc) as (i & _ & Hi).
    apply elem_of_dom. eauto.
Qed.

(** The loop over the submeshes establishes [dedup_rel]. *)
Lemma dedup_submeshes_rel mesh sms : forall vs vs' isms,
  stream_aligned vs ->
  map_accum (dedup_submesh mesh) vs sms = Ok (vs', isms) ->
  stream_aligned vs' /\
  dedup_rel (length (verts vs)) sms isms (length (verts vs')).
Proof.
  induction sms as [|sm sms IH]; intros vs vs' isms Hal.
  - intros [= <- <-]. by split.
  - intros (vs1 & ism & vs2 & isms1 & Hsm & Hsms & [= -> ->])%map_accum_Ok_cons.
    destruct (dedup_submesh_spec _ _ _ _ _ Hal Hsm) as (Hal1 & d & Hd & Hlen).
    destruct (IH _ _ _ Hal1 Hsms) as (Hal2 & Hrel).
    split; [done|]. simpl. exists d. split; [done|]. by rewrite <- Hlen.
Qed.

Lemma dedup_submesh_total mesh vs sm :
  Forall (Forall (fun k => k.1 < length (mesh_vertices mesh))) sm ->
  is_Ok (dedup_submesh mesh vs sm).
Proof.
  intros Hwf. unfold dedup_submesh.
  destruct (map_accum_total (fun _ => True) (dedup_tri mesh) sm)
    with (st := (vs, ∅ : gmap (CornerKey (num:=num)) nat))
    as (st' & ism & -> & _); [|done|by eexists].
  intros st ft Hft _.
  destruct (map_accum_total (fun _ => True) (dedup_corner mesh) ft)
    with (st := st) as (st' & tv & Hrun & _); [|done|by exists st', tv].
  intros st1 k Hk _.
  destruct (dedup_corner_total mesh st1 k) as [[st2 i] Hc]; [|by exists st2, i].
  apply Forall_forall with (x := ft) in Hwf; [|done].
  by apply Forall_forall with (x := k) in Hwf.
Qed.

Lemma make_verts_total mesh sms :
  corners_wf mesh sms -> is_Ok (make_verts mesh sms).
Proof.
  intros Hwf. unfold make_verts.
  destruct (map_accum_total (fun _ => True) (dedup_submesh mesh) sms)
    with (st := empty_stream (num:=num))
    as (vs & isms & -> & _); [|done|by eexists].
  intros vs sm Hsm _.
  destruct (dedup_submesh_total mesh vs sm) as [[vs' ism] Hrun];
    [|by exists vs', ism].
  by apply Forall_forall with (x := sm) in Hwf.
Qed.

Lemma make_verts_rel mesh sms vs isms :
  make_verts mesh sms = Ok (vs, isms) ->
  stream_aligned vs /\ dedup_rel 0 sms isms (length (verts vs)).
Proof.
  intros Hrun. by apply (dedup_submeshes_rel mesh sms empty_stream).
Qed.

(** *** What [dedup_rel] says about indices *)

Lemma dedup_rel_length lo sms isms hi :
  dedup_rel lo sms isms hi ->
  hi = lo + sum_list (map (fun sm => size (submesh_keys sm)) sms).
Proof.
  revert lo isms. induction sms as [|sm sms IH]; intros lo [|ism isms];
    simpl; try done.
  - lia.
  - intros (d & (Hdom & _) & Hrel). apply IH in Hrel.
    rewrite <- Hdom, size_dom. lia.
Qed.

Lemma submesh_dict_corner lo sm ism d t c :
  submesh_dict lo sm ism d ->
  (forall k, sm !! t ≫= (.!! c) = Some k ->
             exists i, ism !! t ≫= (.!! c) = Some i /\ d !! k = Some i) /\
  (forall i, ism !! t ≫= (.!! c) = Some i ->
             exists k, sm !! t ≫= (.!! c) = Some k /\ d !! k = Some i).
Proof.
  intros (_ & _ & _ & Hout). split.
  - intros k (ft & Hft & Hk)%bind_Some.
    destruct (Forall2_lookup_l _ _ _ _ _ Hout Hft) as (tv & Htv & Hrel).
    destruct (Forall2_lookup_l _ _ _ _ _ Hrel Hk) as (i & Hi & Hd).
    exists i. split; [|done]. rewrite Htv. done.
  - intros i (tv & Htv & Hi)%bind_Some.
    destruct (Forall2_lookup_r _ _ _ _ _ Hout Htv) as (ft & Hft & Hrel).
    destruct (Forall2_lookup_r _ _ _ _ _ Hrel Hi) as (k & Hk & Hd).
    exists k. split; [|done]. rewrite Hft. done.
Qed.

(** A rewritten corner exists exactly where a source corner does, and
    its index lies between the two stream lengths. *)
Lemma dedup_rel_corner lo sms isms hi s t c :
  dedup_rel lo sms isms hi ->
  (forall k, corner_at sms s t c = Some k ->
             exists i, corner_at isms s t c = Some i) /\
  (forall i, corner_at isms s t c = Some i ->
             lo <= i < hi /\ is_Some (corner_at sms s t c)).
Proof.
  revert lo isms s. induction sms as [|sm sms IH]; intros lo [|ism isms] s;
    simpl; try done.
  intros (d & Hd & Hrel).
  pose proof (dedup_rel_length _ _ _ _ Hrel) as Hhi.
  destruct s as [|s]; unfold corner_at; simpl.
  - destruct (submesh_dict_corner lo sm ism d t c Hd) as [Hl Hr]. split.
    + intros k (i & Hi & _)%Hl. eauto.
    + intros i (k & Hk & Hi)%Hr. split; [|eauto].
      destruct Hd as (_ & Hrng & _). apply Hrng in Hi. lia.
  - destruct (IH _ _ s Hrel) as [Hl Hr]. split; [exact Hl|].
    intros i [Hi Hk]%Hr. split; [lia|done].
Qed.

(** Two corners get the same index exactly when they lie in the same
    submesh and have the same key. *)
Lemma dedup_rel_pair lo sms isms hi s1 t1 c1 s2 t2 c2 k1 k2 i1 i2 :
  dedup_rel lo sms isms hi ->
  corner_at sms s1 t1 c1 = Some k1 -> corner_at isms s1 t1 c1 = Some i1 ->
  corner_at sms s2 t2 c2 = Some k2 -> corner_at isms s2 t2 c2 = Some i2 ->
  i1 = i2 <-> s1 = s2 /\ k1 = k2.
Proof.
  revert lo isms s1 s2.
  induction sms as [|sm sms IH]; intros lo [|ism isms] s1 s2; simpl; try done.
  intros (d & Hd & Hrel) Hk1 Hi1 Hk2 Hi2.
  assert (forall s t c i, corner_at (ism :: isms) (S s) t c = Some i ->
                          lo + size d <= i) as Hlater.
  { intros s t c i Hi.
    destruct (dedup_rel_corner _ _ _ _ s t c Hrel) as [_ Hr].
    apply Hr in Hi. lia. }
  assert (forall t c k i, corner_at (sm :: sms) 0 t c = Some k ->
            corner_at (ism :: isms) 0 t c = Some i ->
            d !! k = Some i /\ i < lo + size d) as Hfirst.
  { intros t c k i Hk Hi. unfold corner_at in Hk, Hi. simpl in Hk, Hi.
    destruct (submesh_dict_corner lo sm ism d t c Hd) as [Hl _].
    destruct (Hl k Hk) as (i' & Hi' & Hdk).
    assert (i' = i) as ->.
    { apply (inj Some). rewrite <- Hi', <- Hi. reflexivity. }
    split; [done|].
    destruct Hd as (_ & Hrng & _). apply Hrng in Hdk. lia. }
  destruct s1 as [|s1], s2 as [|s2].
  - destruct (Hfirst _ _ _ _ Hk1 Hi1) as [Hd1 _].
    destruct (Hfirst _ _ _ _ Hk2 Hi2) as [Hd2 _].
    destruct Hd as (_ & _ & Hinj & _). split.
    + intros ->. split; [done|]. by eapply Hinj.
    + intros [_ ->]. congruence.
  - destruct (Hfirst _ _ _ _ Hk1 Hi1) as [_ Hlt].
    apply Hlater in Hi2. split; [lia|]. by intros [? _].
  - destruct (Hfirst _ _ _ _ Hk2 Hi2) as [_ Hlt].
    apply Hlater in Hi1. split; [lia|]. by intros [? _].
  - rewrite (IH _ _ s1 s2 Hrel Hk1 Hi1 Hk2 Hi2). split.
    + intros [-> ->]. done.
    + intros [[= ->] ->]. done.
Qed.

Lemma corner_at_Forall {A} (P : A -> Prop) (xs : list (list (list A))) :
  (forall s t c x, corner_at xs s t c = Some x -> P x) ->
  Forall (Forall (Forall P)) xs.
Proof.
  intros HP.
  apply Forall_lookup_2. intros s sm Hs.
  apply Forall_lookup_2. intros t tri Ht.
  apply Forall_lookup_2. intros c x Hc.
  apply (HP s t c). unfold corner_at. rewrite Hs. simpl. by rewrite Ht.
Qed.

(** Rewriting keeps the shape: as many triangles, as many corners each. *)
Lemma dedup_rel_shape lo sms isms hi :
  dedup_rel lo sms isms hi ->
  Forall2 (Forall2 (fun ft (tv : list nat) => length tv = length ft)) sms isms.
Proof.
  revert lo isms. induction sms as [|sm sms IH]; intros lo [|ism isms];
    simpl; try done.
  intros (d & (_ & _ & _ & Hout) & Hrel).
  constructor; [|by eapply IH].
  eapply Forall2_impl; [exact Hout|].
  intros ft tv Hft. symmetry. by eapply Forall2_length.
Qed.

(** The indices of the rewritten submeshes are positions of the stream,
    and rewriting keeps the shape of the submeshes. *)
Lemma make_verts_valid mesh sms vs isms :
  make_verts mesh sms = Ok (vs, isms) ->
  Forall (Forall (Forall (fun i => i < length (verts vs)))) isms /\
  Forall2 (Forall2 (fun ft (tv : list nat) => length tv = length ft))
          sms isms.
Proof.
  intros Hrun. destruct (make_verts_rel _ _ _ _ Hrun) as [_ Hrel].
  split; [|by eapply dedup_rel_shape].
  apply corner_at_Forall. intros s t c i Hi.
  destruct (dedup_rel_corner _ _ _ _ s t c Hrel) as [_ Hr].
  apply Hr in Hi. lia.
Qed.

End Deduplicator.

(** ** The tangent builder *)

Section TangentBuilder.
Context {num : Type} {ops : FloatOps num}.
Implicit Types (h : list (Vec3 (num:=num))) (st : TangentState (num:=num)).
Implicit Types (v d : Vec3 (num:=num)).

Lemma heap_write_length h l v : length (heap_write h l v) = length h.
Proof. apply length_insert. Qed.

Lemma heap_read_write h l v :
  l < length h -> heap_read (heap_write h l v) l = v.
Proof.
  intros Hl. unfold heap_read, heap_write.
  by rewrite list_lookup_insert_eq.
Qed.

Lemma heap_read_write_ne h l l' v :
  l <> l' -> heap_read (heap_write h l v) l' = heap_read h l'.
Proof.
  intros Hl. unfold heap_read, heap_write.
  by rewrite list_lookup_insert_ne.
Qed.

Ltac heap_simpl :=
  repeat first
    [ rewrite heap_read_write by (rewrite ?heap_write_length; lia)
    | rewrite heap_read_write_ne by lia ].

Lemma vdiv_nonzero v (s : num) :
  fis_zero s = false -> vdiv v s = Ok (vscale_inv v s).
Proof. intros Hs. unfold vdiv. rewrite Hs. by destruct v as [[? ?] ?]. Qed.

#[local] Arguments vdiv : simpl never.

Lemma tangent_init_shared (verts : list (Vec3 (num:=num))) :
  shared_cells (length verts) (tangent_init verts).
Proof. by repeat split. Qed.

(** [cells[k] += d] on a list whose cells all refer to object [l]: the
    list is as before and the one object has [d] added. *)
Lemma iadd_cell_replicate n (l : nat) k d h :
  k < n ->
  iadd_cell (replicate n l) k d h
  = Ok (replicate n l, heap_write h l (vadd (heap_read h l) d)).
Proof.
  intros Hk. unfold iadd_cell, py_index.
  rewrite lookup_replicate_2 by done. simpl.
  rewrite list_insert_id; [done|]. by apply lookup_replicate_2.
Qed.

(** A triangle that passes the test adds [sd] three times to the one
    [sdir] object and [td] three times to the one [tdir] object. *)
Lemma accumulate_tri_shared n verts uvs st i0 i1 i2 v1 v2 v3 w1 w2 w3 :
  shared_cells n st -> i0 < n -> i1 < n -> i2 < n ->
  verts !! i0 = Some v1 -> verts !! i1 = Some v2 -> verts !! i2 = Some v3 ->
  uvs !! i0 = Some w1 -> uvs !! i1 = Some w2 -> uvs !! i2 = Some w3 ->
  degenerate (uv_det w1 w2 w3) = false ->
  fis_zero (uv_det w1 w2 w3) = false ->
  let u1 := vsub v2 v1 in
  let u2 := vsub v3 v1 in
  let s1 := fsub w2.1 w1.1 in
  let s2 := fsub w3.1 w1.1 in
  let t1 := fsub w2.2 w1.2 in
  let t2 := fsub w3.2 w1.2 in
  let r := uv_det w1 w2 w3 in
  let sd := vscale_inv (vsub (vscale t2 u1) (vscale t1 u2)) r in
  let td := vscale_inv (vsub (vscale s1 u2) (vscale s2 u1)) r in
  let s := heap_read (t_heap st) 0 in
  let t := heap_read (t_heap st) 1 in
  exists st',
    accumulate_tri verts uvs st [i0; i1; i2] = Ok st' /\
    shared_cells n st' /\
    heap_read (t_heap st') 0 = vadd (vadd (vadd s sd) sd) sd /\
    heap_read (t_heap st') 1 = vadd (vadd (vadd t td) td) td.
Proof.
  intros (Hs & Ht & Hh) H0 H1 H2 Hv1 Hv2 Hv3 Hw1 Hw2 Hw3 Hr Hz.
  unfold accumulate_tri, py_index. simpl.
  rewrite Hv1, Hv2, Hv3, Hw1, Hw2, Hw3. simpl.
  unfold degenerate, uv_det in Hr. rewrite Hr.
  unfold uv_det in Hz. rewrite !vdiv_nonzero by done. simpl.
  rewrite Hs, Ht.
  repeat (rewrite iadd_cell_replicate by done; simpl).
  eexists. split; [done|]. split.
  - repeat split; simpl. by rewrite !heap_write_length.
  - simpl. split; by heap_simpl.
Qed.

(** A triangle that fails the test [r * r < 1e-6] changes nothing and
    does not raise. *)
Lemma accumulate_tri_skip verts uvs st i0 i1 i2 v1 v2 v3 w1 w2 w3 :
  verts !! i0 = Some v1 -> verts !! i1 = Some v2 -> verts !! i2 = Some v3 ->
  uvs !! i0 = Some w1 -> uvs !! i1 = Some w2 -> uvs !! i2 = Some w3 ->
  degenerate (uv_det w1 w2 w3) = true ->
  accumulate_tri verts uvs st [i0; i1; i2] = Ok st.
Proof.
  intros Hv1 Hv2 Hv3 Hw1 Hw2 Hw3 Hr.
  unfold accumulate_tri, py_index. simpl.
  rewrite Hv1, Hv2, Hv3, Hw1, Hw2, Hw3. simpl.
  unfold degenerate, uv_det in Hr. by rewrite Hr.
Qed.

Lemma accumulate_tri_total n verts uvs st tri :
  zero_is_degenerate ->
  n <= length verts -> n <= length uvs ->
  shared_cells n st -> tri_wf n tri ->
  exists st', accumulate_tri verts uvs st tri = Ok st' /\ shared_cells n st'.
Proof.
  intros Hzero Hverts Huvs Hst (i0 & i1 & i2 & -> & H0 & H1 & H2).
  destruct (lookup_lt_is_Some_2 verts i0) as [v1 Hv1]; [lia|].
  destruct (lookup_lt_is_Some_2 verts i1) as [v2 Hv2]; [lia|].
  destruct (lookup_lt_is_Some_2 verts i2) as [v3 Hv3]; [lia|].
  destruct (lookup_lt_is_Some_2 uvs i0) as [w1 Hw1]; [lia|].
  destruct (lookup_lt_is_Some_2 uvs i1) as [w2 Hw2]; [lia|].
  destruct (lookup_lt_is_Some_2 uvs i2) as [w3 Hw3]; [lia|].
  destruct (degenerate (uv_det w1 w2 w3)) eqn:Hr.
  - exists st. split; [|done]. by eapply accumulate_tri_skip.
  - destruct (accumulate_tri_shared n verts uvs st i0 i1 i2
                v1 v2 v3 w1 w2 w3) as (st' & Hrun & Hsh & _); try done;
      [|by eauto].
    destruct (fis_zero (uv_det w1 w2 w3)) eqn:Hz; [|done].
    apply Hzero in Hz. congruence.
Qed.

Lemma accumulate_total n verts uvs submeshes st :
  zero_is_degenerate ->
  n <= length verts -> n <= length uvs ->
  tris_wf n submeshes -> shared_cells n st ->
  exists st', accumulate verts uvs submeshes st = Ok st' /\ shared_cells n st'.
Proof.
  intros Hzero Hverts Huvs Hwf Hst. unfold accumulate.
  apply (for_each_total (shared_cells n)); [|done].
  intros st1 sm Hsm Hst1.
  apply (for_each_total (shared_cells n)); [|done].
  intros st2 tri Htri Hst2.
  apply (accumulate_tri_total n); try done.
  apply Forall_forall with (x := sm) in Hwf; [|done].
  by apply Forall_forall with (x := tri) in Hwf.
Qed.

Lemma enumerate_length {A} (l : list A) : length (enumerate l) = length l.
Proof. unfold enumerate. rewrite length_zip_with, length_seq. lia. Qed.

Lemma enumerate_bound {A} (l : list A) :
  Forall (fun ix => ix.1 < length l) (enumerate l).
Proof.
  apply Forall_forall. intros [i x] Hin. simpl.
  apply elem_of_zip_l, list_elem_of_In, in_seq in Hin. lia.
Qed.

(** One step of the final loop: it appends one entry, whose handedness
    is computed against the one [tdir] object, which it leaves alone. *)
Lemma tangent_step_shared n h (tangents : list (list num)) i nrm :
  i < n -> length h = 2 ->
  exists h' e,
    tangent_step (replicate n 0) (replicate n 1) (h, tangents) (i, nrm)
    = Ok (h', tangents ++ [e]) /\
    length h' = 2 /\ heap_read h' 1 = heap_read h 1 /\
    tangent_entry (heap_read h 1) e.
Proof.
  intros Hi Hh. unfold tangent_step, py_index.
  rewrite !lookup_replicate_2 by done. simpl.
  eexists _, _. split; [reflexivity|].
  split; [by rewrite !heap_write_length|].
  split; [by heap_simpl|].
  rewrite !(heap_read_write_ne _ 0 1) by lia.
  match goal with |- context [vtuple ?t] => destruct t as [[x y] z] end.
  destruct (heap_read h 1) as [[tdx tdy] tdz].
  by exists x, y, z.
Qed.

Lemma tangent_loop_shared n (ixs : list (nat * Vec3 (num:=num))) :
  forall h (tangents : list (list num)),
  Forall (fun ix => ix.1 < n) ixs -> length h = 2 ->
  exists h' new,
    for_each (tangent_step (replicate n 0) (replicate n 1)) ixs (h, tangents)
    = Ok (h', tangents ++ new) /\
    length new = length ixs /\
    Forall (tangent_entry (heap_read h 1)) new.
Proof.
  induction ixs as [|[i nrm] ixs IH]; intros h tangents Hwf Hh.
  - exists h, []. by rewrite app_nil_r.
  - inversion Hwf as [|? ? Hi Hwf']; subst. simpl in Hi.
    cbn [for_each].
    destruct (tangent_step_shared n h tangents i nrm Hi Hh)
      as (h1 & e & -> & Hh1 & Htd & He). cbn [mbind result_bind].
    destruct (IH h1 (tangents ++ [e]) Hwf' Hh1) as (h2 & new & -> & Hlen & Hnew).
    exists h2, (e :: new). rewrite <- app_assoc. split; [done|].
    split; [simpl; lia|]. constructor; [done|]. by rewrite <- Htd.
Qed.

(** [make_tangents] on a well-formed stream: it does not raise, and
    returns one entry per normal, every one with the handedness taken
    against the accumulated [tdir]. *)
Lemma make_tangents_spec verts uvs normals submeshes :
  zero_is_degenerate ->
  length verts <= length uvs ->
  length normals <= length verts ->
  tris_wf (length verts) submeshes ->
  exists st tangents,
    accumulate verts uvs submeshes (tangent_init verts) = Ok st /\
    make_tangents verts uvs normals submeshes = Ok tangents /\
    length tangents = length normals /\
    Forall (tangent_entry (heap_read (t_heap st) 1)) tangents.
Proof.
  intros Hzero Huvs Hnormals Hwf.
  destruct (accumulate_total (length verts) verts uvs submeshes
              (tangent_init verts)) as (st & Hacc & Hs & Ht & Hh);
    [done..|apply tangent_init_shared|].
  destruct (tangent_loop_shared (length verts) (enumerate normals)
              (t_heap st) []) as (h' & new & Hloop & Hlen & Hnew); [|done|].
  { eapply Forall_impl; [apply enumerate_bound|]. simpl. intros; lia. }
  exists st, new. split; [done|].
  unfold make_tangents. rewrite Hacc. simpl. rewrite Hs, Ht, Hloop. simpl.
  split; [done|]. split; [|done]. by rewrite Hlen, enumerate_length.
Qed.

Lemma tangent_entry_length td (e : list num) :
  tangent_entry td e -> length e = 4.
Proof. by intros (x & y & z & ->). Qed.

End TangentBuilder.

(** * The claims of the design document *)

(** ** Face splitter *)

(** C7, at a concrete face: for the quad of [quad_mesh] the hypotheses of
    [split_face_fan] hold and its conclusion follows. *)
Lemma split_face_fan_witness :
  polygons quad_mesh !! 0 = Some quad_face /\
  3 <= length (vertices quad_face) /\
  face_wf quad_mesh quad_face /\
  exists tris,
    split_face quad_mesh 0 = Ok tris /\
    length tris = length (vertices quad_face) - 2 /\
    forall i, 1 <= i <= length (vertices quad_face) - 2 ->
      exists c0 ci cj,
        face_corner quad_mesh quad_face 0 = Some c0 /\
        face_corner quad_mesh quad_face i = Some ci /\
        face_corner quad_mesh quad_face (i + 1) = Some cj /\
        tris !! (i - 1) = Some [c0; ci; cj].
Proof.
  assert (face_wf quad_mesh quad_face) as Hwf.
  { split; [simpl; lia|]. repeat constructor; simpl; lia. }
  split; [reflexivity|]. split; [simpl; lia|]. split; [exact Hwf|].
  apply (split_face_fan quad_mesh 0 quad_face); [reflexivity|simpl; lia|exact Hwf].
Defined.

(** C7 as the document words it does not hold: for the quad, the
    triangles are (c0, c1, c2) and (c0, c2, c3), and under no numbering
    [pos] of the triangles is triangle [i] equal to
    (corner 0, corner [i+1], corner [i+2]) for all [i] in [1 .. 2]:
    at [i = 2] there is no corner 4. *)
Lemma split_face_claimed_formula_fails :
  exists c0 c1 c2 c3,
    face_corner quad_mesh quad_face 0 = Some c0 /\
    face_corner quad_mesh quad_face 1 = Some c1 /\
    face_corner quad_mesh quad_face 2 = Some c2 /\
    face_corner quad_mesh quad_face 3 = Some c3 /\
    split_face quad_mesh 0 = Ok [[c0; c1; c2]; [c0; c2; c3]] /\
    [c0; c1; c2] <> [c0; c2; c3] /\
    forall (tris : list (list CornerKey)) (pos : nat -> nat),
      split_face quad_mesh 0 = Ok tris ->
      ~ (forall i, 1 <= i <= length (vertices quad_face) - 2 ->
           exists d0 di dj,
             face_corner quad_mesh quad_face 0 = Some d0 /\
             face_corner quad_mesh quad_face (i + 1) = Some di /\
             face_corner quad_mesh quad_face (i + 2) = Some dj /\
             tris !! pos i = Some [d0; di; dj]).
Proof.
  do 4 eexists. repeat (split; [reflexivity|]).
  split; [discriminate|].
  intros tris pos _ Hclaim.
  destruct (Hclaim 2) as (d0 & di & dj & _ & _ & Hnone & _); [simpl; lia|].
  discriminate Hnone.
Qed.

(** ** Vertex deduplicator *)

Section DeduplicatorClaims.
Context {num : Type} `{Countable num}.
Implicit Types (mesh : Mesh (num:=num)).
Implicit Types (sms : list (list (list (CornerKey (num:=num))))).

(** C3, as the code has it: the map from CornerKey to index is scoped
    per submesh.  [make_verts] does not raise on corners that name
    vertices of the mesh; two corners get the same index exactly when
    they lie in the same submesh and have the same CornerKey (so corners
    that differ in the vertex index or in any uv coordinate get distinct
    indices); and the stream holds one vertex for each distinct CornerKey
    of each submesh. *)
Theorem make_verts_dedup_per_submesh mesh sms :
  corners_wf mesh sms ->
  exists vs isms,
    make_verts mesh sms = Ok (vs, isms) /\
    length (verts vs)
    = sum_list (map (fun sm => size (submesh_keys sm)) sms) /\
    forall s1 t1 c1 s2 t2 c2 k1 k2,
      corner_at sms s1 t1 c1 = Some k1 ->
      corner_at sms s2 t2 c2 = Some k2 ->
      exists i1 i2,
        corner_at isms s1 t1 c1 = Some i1 /\
        corner_at isms s2 t2 c2 = Some i2 /\
        (i1 = i2 <-> s1 = s2 /\ k1 = k2).
Proof.
  intros Hwf. destruct (make_verts_total mesh sms Hwf) as [[vs isms] Hrun].
  exists vs, isms. split; [done|].
  destruct (make_verts_rel _ _ _ _ Hrun) as [_ Hrel].
  split; [by rewrite (dedup_rel_length _ _ _ _ Hrel)|].
  intros s1 t1 c1 s2 t2 c2 k1 k2 Hk1 Hk2.
  destruct (dedup_rel_corner _ _ _ _ s1 t1 c1 Hrel) as [Hl1 _].
  destruct (dedup_rel_corner _ _ _ _ s2 t2 c2 Hrel) as [Hl2 _].
  destruct (Hl1 _ Hk1) as [i1 Hi1]. destruct (Hl2 _ Hk2) as [i2 Hi2].
  exists i1, i2. split; [done|]. split; [done|].
  by eapply dedup_rel_pair.
Qed.

(** C8: after deduplication every index of every rewritten triangle is
    below the length of the positions list, and the rewritten submeshes
    have the triangles and corners of the source ones. *)
Theorem make_verts_indices_valid mesh sms :
  corners_wf mesh sms ->
  exists vs isms,
    make_verts mesh sms = Ok (vs, isms) /\
    Forall (Forall (Forall (fun i => i < length (verts vs)))) isms /\
    Forall2 (Forall2 (fun ft (tv : list nat) => length tv = length ft))
            sms isms.
Proof.
  intros Hwf. destruct (make_verts_total mesh sms Hwf) as [[vs isms] Hrun].
  exists vs, isms. split; [done|]. by apply (make_verts_valid mesh sms).
Qed.

End DeduplicatorClaims.

(** C3, at a concrete mesh: the triangle of [tri_mesh] in two submeshes. *)
Lemma make_verts_dedup_per_submesh_witness :
  corners_wf tri_mesh two_submeshes /\
  exists vs isms,
    make_verts tri_mesh two_submeshes = Ok (vs, isms) /\
    length (verts vs)
    = sum_list (map (fun sm => size (submesh_keys sm)) two_submeshes) /\
    forall s1 t1 c1 s2 t2 c2 k1 k2,
      corner_at two_submeshes s1 t1 c1 = Some k1 ->
      corner_at two_submeshes s2 t2 c2 = Some k2 ->
      exists i1 i2,
        corner_at isms s1 t1 c1 = Some i1 /\
        corner_at isms s2 t2 c2 = Some i2 /\
        (i1 = i2 <-> s1 = s2 /\ k1 = k2).
Proof.
  assert (corners_wf tri_mesh two_submeshes) as Hwf.
  { repeat constructor; simpl; lia. }
  split; [exact Hwf|].
  exact (make_verts_dedup_per_submesh tri_mesh two_submeshes Hwf).
Defined.

(** C3 as the document words it does not hold: the first corner of the
    triangle has the same CornerKey in both submeshes, yet it gets index
    0 in the first and index 3 in the second, and the stream holds six
    vertices for three distinct keys. *)
Lemma make_verts_dict_not_shared :
  exists vs isms k,
    make_verts tri_mesh two_submeshes = Ok (vs, isms) /\
    corner_at two_submeshes 0 0 0 = Some k /\
    corner_at two_submeshes 1 0 0 = Some k /\
    corner_at isms 0 0 0 = Some 0 /\
    corner_at isms 1 0 0 = Some 3 /\
    isms = [[[0; 1; 2]]; [[3; 4; 5]]] /\
    length (verts vs) = 6.
Proof. do 3 eexists. vm_compute. repeat split. Qed.

(** C8, at a concrete mesh. *)
Lemma make_verts_indices_valid_witness :
  corners_wf tri_mesh two_submeshes /\
  exists vs isms,
    make_verts tri_mesh two_submeshes = Ok (vs, isms) /\
    Forall (Forall (Forall (fun i => i < length (verts vs)))) isms /\
    Forall2 (Forall2 (fun ft (tv : list nat) => length tv = length ft))
            two_submeshes isms.
Proof.
  assert (corners_wf tri_mesh two_submeshes) as Hwf.
  { repeat constructor; simpl; lia. }
  split; [exact Hwf|].
  exact (make_verts_indices_valid tri_mesh two_submeshes Hwf).
Defined.

(** ** Tangent builder *)

Lemma Q_zero_is_degenerate : zero_is_degenerate (ops:=Q_ops).
Proof.
  intros r Hr. unfold degenerate. simpl in *.
  apply Qeq_bool_iff in Hr.
  apply negb_true_iff. destruct (Qle_bool _ _) eqn:Hle; [|done].
  apply Qle_bool_iff in Hle. rewrite Qred_correct, Hr in Hle.
  exfalso. apply Hle. reflexivity.
Qed.

Lemma tris_wf_of_shape {K} n (sms : list (list (list K)))
    (isms : list (list (list nat))) :
  Forall (Forall (fun ft => length ft = 3)) sms ->
  Forall2 (Forall2 (fun ft (tv : list nat) => length tv = length ft))
          sms isms ->
  Forall (Forall (Forall (fun i => i < n))) isms ->
  tris_wf n isms.
Proof.
  intros Htri Hshape Hrange.
  apply Forall_lookup_2. intros s ism Hs.
  apply Forall_lookup_2. intros t tv Ht.
  destruct (Forall2_lookup_r _ _ _ _ _ Hshape Hs) as (sm & Hsm & Hsh).
  destruct (Forall2_lookup_r _ _ _ _ _ Hsh Ht) as (ft & Hft & Hlen).
  pose proof (Forall_lookup_1 _ _ _ _ (Forall_lookup_1 _ _ _ _ Htri Hsm) Hft)
    as H3. simpl in H3.
  pose proof (Forall_lookup_1 _ _ _ _ (Forall_lookup_1 _ _ _ _ Hrange Hs) Ht)
    as Hlt.
  rewrite H3 in Hlen.
  destruct tv as [|a [|b [|c [|? ?]]]]; simpl in Hlen; try lia.
  inversion Hlt as [|? ? Ha Hlt1]; subst.
  inversion Hlt1 as [|? ? Hb Hlt2]; subst.
  inversion Hlt2 as [|? ? Hc _]; subst.
  by exists a, b, c.
Qed.

Section TangentClaims.
Context {num : Type} `{Countable num} {ops : FloatOps num}.
Implicit Types (mesh : Mesh (num:=num)).
Implicit Types (sms : list (list (list (CornerKey (num:=num))))).

(** C9: the lists that [make_verts] returns have one length, and
    [make_tangents], run on them with a uv list of that length, returns
    one tangent of four components for every vertex.  Neither raises on
    triangles whose corners name vertices of the mesh. *)
Theorem vertex_stream_parallel mesh sms :
  zero_is_degenerate ->
  corners_wf mesh sms ->
  Forall (Forall (fun ft => length ft = 3)) sms ->
  exists vs isms,
    make_verts mesh sms = Ok (vs, isms) /\
    length (normals vs) = length (verts vs) /\
    length (uvs vs) = length (verts vs) /\
    length (vgroups vs) = length (verts vs) /\
    forall uv0 : list UV,
      length uv0 = length (verts vs) ->
      exists tangents,
        make_tangents (verts vs) uv0 (normals vs) isms = Ok tangents /\
        length tangents = length (verts vs) /\
        Forall (fun e => length e = 4) tangents.
Proof.
  intros Hzero Hwf Htri.
  destruct (make_verts_total mesh sms Hwf) as [[vs isms] Hrun].
  destruct (make_verts_valid mesh sms vs isms Hrun) as [Hrange Hshape].
  exists vs, isms. split; [done|].
  destruct (make_verts_rel _ _ _ _ Hrun) as [(Hn & Hu & Hg) _].
  do 3 (split; [done|]).
  intros uv0 Huv0.
  destruct (make_tangents_spec (verts vs) uv0 (normals vs) isms)
    as (st & tangents & _ & Hmt & Hlen & Hent); [done|lia|lia| |].
  { by eapply tris_wf_of_shape. }
  exists tangents. split; [done|]. split; [lia|].
  eapply Forall_impl; [exact Hent|]. intros e. apply tangent_entry_length.
Qed.

(** C10: numeric degeneracies do not raise.  A triangle whose uv
    determinant [r] has [r * r < 1e-6] leaves the accumulators as they
    are; and on every well-formed input [make_tangents] returns one entry
    per vertex: for every vertex [i], with [td] the sum that the cell
    [tdir[i]] holds when the triangle loops are done, entry [i] is
    [(x, y, z, hand)] where [hand] is [-1.0] when
    [x * td.x + y * td.y + z * td.z < 0] and [1.0] otherwise. *)
Theorem make_tangents_degenerate_safe
    (verts : list Vec3) (uvs : list UV) (normals : list Vec3)
    (submeshes : list (list (list nat))) :
  zero_is_degenerate ->
  length uvs = length verts ->
  length normals = length verts ->
  tris_wf (length verts) submeshes ->
  (forall st i0 i1 i2 w1 w2 w3,
     i0 < length verts -> i1 < length verts -> i2 < length verts ->
     uvs !! i0 = Some w1 -> uvs !! i1 = Some w2 -> uvs !! i2 = Some w3 ->
     degenerate (uv_det w1 w2 w3) = true ->
     accumulate_tri verts uvs st [i0; i1; i2] = Ok st) /\
  exists st tangents,
    accumulate verts uvs submeshes (tangent_init verts) = Ok st /\
    make_tangents verts uvs normals submeshes = Ok tangents /\
    length tangents = length verts /\
    forall i, i < length verts ->
      exists tdx tdy tdz x y z,
        cell_value (t_heap st) (tdir st) i = Some (tdx, tdy, tdz) /\
        tangents !! i
        = Some [x; y; z;
                if flt (fadd (fadd (fmul x tdx) (fmul y tdy)) (fmul z tdz))
                       fzero
                then fneg_one else fone].
Proof.
  intros Hzero Huvs Hnormals Hwf. split.
  - intros st i0 i1 i2 w1 w2 w3 H0 H1 H2 Hw1 Hw2 Hw3 Hr.
    destruct (lookup_lt_is_Some_2 verts i0 H0) as [v1 Hv1].
    destruct (lookup_lt_is_Some_2 verts i1 H1) as [v2 Hv2].
    destruct (lookup_lt_is_Some_2 verts i2 H2) as [v3 Hv3].
    by eapply accumulate_tri_skip.
  - destruct (make_tangents_spec verts uvs normals submeshes)
      as (st & tangents & Hacc & Hmt & Hlen & Hent); [done|lia|lia|done|].
    destruct (accumulate_total (length verts) verts uvs submeshes
                (tangent_init verts)) as (st' & Hacc' & Hsh);
      [done|lia|lia|done|apply tangent_init_shared|].
    assert (st' = st) as -> by congruence.
    destruct Hsh as (_ & Htd & Hh).
    exists st, tangents. split; [done|]. split; [done|]. split; [lia|].
    intros i Hi.
    destruct (lookup_lt_is_Some_2 (t_heap st) 1) as [[[tdx tdy] tdz] Hcell];
      [lia|].
    destruct (lookup_lt_is_Some_2 tangents i) as [e He]; [lia|].
    pose proof (Forall_lookup_1 _ _ _ _ Hent He) as (x & y & z & ->).
    exists tdx, tdy, tdz, x, y, z. split.
    + unfold cell_value. rewrite Htd.
      rewrite lookup_replicate_2 by done. exact Hcell.
    + rewrite He. unfold heap_read. rewrite Hcell. reflexivity.
Qed.

End TangentClaims.

(** C9, at a concrete mesh. *)
Lemma vertex_stream_parallel_witness :
  zero_is_degenerate (ops:=Q_ops) /\
  corners_wf tri_mesh two_submeshes /\
  Forall (Forall (fun ft => length ft = 3)) two_submeshes /\
  exists vs isms,
    make_verts tri_mesh two_submeshes = Ok (vs, isms) /\
    length (normals vs) = length (verts vs) /\
    length (uvs vs) = length (verts vs) /\
    length (vgroups vs) = length (verts vs) /\
    forall uv0 : list UV,
      length uv0 = length (verts vs) ->
      exists tangents,
        make_tangents (verts vs) uv0 (normals vs) isms = Ok tangents /\
        length tangents = length (verts vs) /\
        Forall (fun e => length e = 4) tangents.
Proof.
  assert (corners_wf tri_mesh two_submeshes) as Hwf.
  { repeat constructor; simpl; lia. }
  assert (Forall (Forall (fun ft : list (CornerKey (num:=Q)) => length ft = 3))
                 two_submeshes) as Htri.
  { repeat constructor. }
  split; [exact Q_zero_is_degenerate|]. split; [exact Hwf|].
  split; [exact Htri|].
  exact (vertex_stream_parallel tri_mesh two_submeshes
           Q_zero_is_degenerate Hwf Htri).
Defined.

(** C10, at a concrete input: one triangle whose three uvs coincide. *)
Lemma make_tangents_degenerate_safe_witness :
  zero_is_degenerate (ops:=Q_ops) /\
  length flat_uvs = length tan_verts /\
  length tan_normals = length tan_verts /\
  tris_wf (length tan_verts) [[[0; 1; 2]]] /\
  (forall st i0 i1 i2 w1 w2 w3,
     i0 < length tan_verts -> i1 < length tan_verts ->
     i2 < length tan_verts ->
     flat_uvs !! i0 = Some w1 -> flat_uvs !! i1 = Some w2 ->
     flat_uvs !! i2 = Some w3 ->
     degenerate (uv_det w1 w2 w3) = true ->
     accumulate_tri tan_verts flat_uvs st [i0; i1; i2] = Ok st) /\
  exists st tangents,
    accumulate tan_verts flat_uvs [[[0; 1; 2]]] (tangent_init tan_verts)
    = Ok st /\
    make_tangents tan_verts flat_uvs tan_normals [[[0; 1; 2]]]
    = Ok tangents /\
    length tangents = length tan_verts /\
    forall i, i < length tan_verts ->
      exists tdx tdy tdz x y z,
        cell_value (t_heap st) (tdir st) i = Some (tdx, tdy, tdz) /\
        tangents !! i
        = Some [x; y; z;
                if flt (fadd (fadd (fmul x tdx) (fmul y tdy)) (fmul z tdz))
                       fzero
                then fneg_one else fone].
Proof.
  assert (tris_wf (length tan_verts) [[[0; 1; 2]]]) as Hwf.
  { repeat constructor. exists 0, 1, 2. simpl. repeat split; lia. }
  split; [exact Q_zero_is_degenerate|].
  split; [reflexivity|]. split; [reflexivity|]. split; [exact Hwf|].
  exact (make_tangents_degenerate_safe tan_verts flat_uvs tan_normals
           [[[0; 1; 2]]] Q_zero_is_degenerate eq_refl eq_refl Hwf).
Defined.

(** C4 at a concrete input: the triangle [[0; 1; 2]] does not use vertex
    3, yet accumulating it changes the sums that [sdir[3]] and [tdir[3]]
    hold, from zero to three times the contribution of the triangle; the
    cells of the triangle's own vertices hold that same value, not one
    contribution each. *)
Theorem accumulate_tri_changes_other_vertex :
  let st0 := tangent_init tan_verts in
  exists st',
    accumulate_tri tan_verts tan_uvs st0 [0; 1; 2] = Ok st' /\
    cell_value (t_heap st0) (sdir st0) 3 = Some (0, 0, 0)%Q /\
    cell_value (t_heap st') (sdir st') 3 = Some (3, 0, 0)%Q /\
    cell_value (t_heap st0) (tdir st0) 3 = Some (0, 0, 0)%Q /\
    cell_value (t_heap st') (tdir st') 3 = Some (0, 3, 0)%Q /\
    cell_value (t_heap st') (sdir st') 0 = Some (3, 0, 0)%Q.
Proof. eexists. vm_compute. repeat split. Qed.

(** ** Material binder *)

Section BinderClaims.
Context {num : Type}.
Variable make_material : Mu -> Material -> result (Mu * MuMaterial).

(** Whatever the slots of the mesh, [make_renderer] returns [None] when
    it returns. *)
Lemma make_renderer_never_renders (mu : Mu) (mesh : Mesh (num:=num)) mu' r :
  make_renderer make_material mu mesh = Ok (mu', r) -> r = None.
Proof.
  unfold make_renderer, mesh_materials.
  destruct (mesh_materials_collect make_material mu mesh) as [[mu1 l]|e];
    simpl; [|done].
  by intros [= _ <-].
Qed.

End BinderClaims.

(** C1 at a concrete input: the mesh has one slot with a shader, whose
    material is in the registry under index 0.  The loop collects [[0]],
    but [make_renderer] returns [None], not a renderer with materials
    [[0]]. *)
Theorem make_renderer_drops_materials :
  mesh_materials_collect next_material hull_registry hull_mesh
  = Ok (hull_registry, [0]) /\
  make_renderer next_material hull_registry hull_mesh
  = Ok (hull_registry, None).
Proof. split; vm_compute; reflexivity. Qed.

(** ** Skin resolver and mesh assembler *)

Section AssemblerClaims.
Context {num : Type} `{Countable num} {ops : FloatOps num}.
Variable MuMesh_new : MuMesh (num:=num).
Variable make_material : Mu -> Material -> result (Mu * MuMaterial).

(** As soon as [mumesh.groups] holds a vertex, [mesh_bones] raises
    [TypeError]. *)
Lemma mesh_bones_nonempty_raises (obj : BObject (num:=num)) mumesh armature
    vgrp rest :
  mu_groups mumesh = Some (vgrp :: rest) ->
  mesh_bones obj mumesh armature = Raise TypeError.
Proof.
  intros Hg. unfold mesh_bones.
  destruct (foldl _ _ _) as [bones boneindices]. by rewrite Hg.
Qed.

Lemma mesh_bones_no_groups (obj : BObject (num:=num)) mumesh armature :
  mu_groups mumesh = None ->
  mesh_bones obj mumesh armature = Raise AttributeError.
Proof.
  intros Hg. unfold mesh_bones.
  destruct (foldl _ _ _) as [bones boneindices]. by rewrite Hg.
Qed.

(** C5: [handle_skinned_mesh] raises [NameError] on every input, at its
    first statement: the name [MuSkinnedMeshRenderer] is not bound in the
    module. *)
Theorem handle_skinned_mesh_raises_NameError
    (obj : BObject (num:=num)) (muobj : MuObject) (mu : Mu)
    (armature : list string) :
  ("MuSkinnedMeshRenderer" ∉ module_globals ++ builtins_used) /\
  handle_skinned_mesh MuMesh_new make_material obj muobj mu armature
  = Raise NameError.
Proof.
  split; [|reflexivity].
  apply (bool_decide_unpack _). vm_compute. exact I.
Qed.

(** [make_mesh] does not assign [mumesh.groups], and it sets the
    attribute [groups] of the baked mesh to the fourth list of
    [make_verts]. *)
Lemma make_mesh_groups (obj : BObject (num:=num)) mumesh mesh' :
  make_mesh MuMesh_new obj = Ok (mumesh, mesh') ->
  mu_groups mumesh = mu_groups MuMesh_new /\
  exists tris vun isms,
    make_tris (to_mesh obj) (build_submeshes (to_mesh obj)) = Ok tris /\
    make_verts (to_mesh obj) tris = Ok (vun, isms) /\
    mesh' = set_mesh_groups (vgroups vun) (to_mesh obj).
Proof.
  unfold make_mesh.
  intros (tris & Htris & ([vun isms] & Hverts & Hrun)%bind_Ok)%bind_Ok.
  apply bind_Ok in Hrun as (m1 & Hm1 & Hrun).
  apply bind_Ok in Hrun as (muvs & Hmuvs & Hrun).
  apply bind_Ok in Hrun as (m2 & Hm2 & [= <- <-]).
  split; [|by exists tris, vun, isms].
  assert (mu_groups m1 = mu_groups MuMesh_new) as Hg1.
  { destruct (nonempty (uvs vun)); [|by injection Hm1 as <-].
    apply bind_Ok in Hm1 as (m0 & Hm0 & Hm1).
    assert (mu_groups m0 = mu_groups MuMesh_new) as Hg0.
    { destruct (bool_decide (0 < length (uvs vun)));
        [|by injection Hm0 as <-].
      by apply bind_Ok in Hm0 as (l & _ & [= <-]). }
    destruct (bool_decide (1 < length (uvs vun)));
      [|by injection Hm1 as <-].
    by apply bind_Ok in Hm1 as (l & _ & [= <-]). }
  destruct (nonempty muvs); [|by injection Hm2 as <-].
  apply bind_Ok in Hm2 as (mverts & _ & Hm2).
  apply bind_Ok in Hm2 as (mnormals & _ & Hm2).
  apply bind_Ok in Hm2 as (msub & _ & Hm2).
  by apply bind_Ok in Hm2 as (t & _ & [= <-]).
Qed.

(** C6: with a [MuMesh] class whose instances start without [groups],
    the [MuMesh] that [make_mesh] returns has no [groups]; the list of
    bone-group references is stored in the attribute [groups] of the
    baked mesh, which the call thereby changes; and [mesh_bones], which
    reads [mumesh.groups], raises [AttributeError]. *)
Theorem make_mesh_groups_on_source_mesh (obj : BObject (num:=num))
    mumesh mesh' :
  mu_groups MuMesh_new = None ->
  make_mesh MuMesh_new obj = Ok (mumesh, mesh') ->
  mu_groups mumesh = None /\
  (exists tris vun isms,
     make_tris (to_mesh obj) (build_submeshes (to_mesh obj)) = Ok tris /\
     make_verts (to_mesh obj) tris = Ok (vun, isms) /\
     mesh' = set_mesh_groups (vgroups vun) (to_mesh obj) /\
     mesh_groups mesh' = Some (vgroups vun)) /\
  forall armature, mesh_bones obj mumesh armature = Raise AttributeError.
Proof.
  intros Hnew Hrun.
  destruct (make_mesh_groups obj mumesh mesh' Hrun)
    as (Hg & tris & vun & isms & Htris & Hverts & ->).
  rewrite Hnew in Hg. split; [done|]. split.
  - by exists tris, vun, isms.
  - intros armature. by apply mesh_bones_no_groups.
Qed.

End AssemblerClaims.

(** C2 at a concrete input: a vertex with the memberships (A, 0.7),
    (B, 0.2), (C, 0.1), of which A and B are bones.  [mesh_bones] raises
    [TypeError] and produces no table. *)
Theorem mesh_bones_raises_TypeError :
  mesh_bones skin_object skin_mumesh ["A"; "B"] = Raise TypeError.
Proof. vm_compute. reflexivity. Qed.

(** C6, at a concrete object: the triangle of [tri_mesh] and a [MuMesh]
    class without attributes. *)
Lemma make_mesh_groups_on_source_mesh_witness :
  mu_groups MuMesh_bare = None /\
  exists mumesh mesh',
    make_mesh MuMesh_bare tri_object = Ok (mumesh, mesh') /\
    mu_groups mumesh = None /\
    (exists tris vun isms,
       make_tris (to_mesh tri_object) (build_submeshes (to_mesh tri_object))
       = Ok tris /\
       make_verts (to_mesh tri_object) tris = Ok (vun, isms) /\
       mesh' = set_mesh_groups (vgroups vun) (to_mesh tri_object) /\
       mesh_groups mesh' = Some (vgroups vun)) /\
    forall armature,
      mesh_bones tri_object mumesh armature = Raise AttributeError.
Proof.
  split; [reflexivity|].
  destruct (make_mesh MuMesh_bare tri_object) as [[mumesh mesh']|e] eqn:Hrun;
    [|vm_compute in Hrun; discriminate Hrun].
  exists mumesh, mesh'. split; [reflexivity|].
  exact (make_mesh_groups_on_source_mesh MuMesh_bare tri_object mumesh mesh'
           eq_refl Hrun).
Defined.

(** * Further properties of the module *)

(** ** [split_face], [build_submeshes] and [make_tris] *)

Lemma map_result_Raise {X Y} (f : X -> result Y) xs e :
  map_result f xs = Raise e -> exists x, x ∈ xs /\ f x = Raise e.
Proof.
  induction xs as [|x xs IH]; simpl; [done|].
  destruct (f x) as [y|e'] eqn:Hx; simpl.
  - destruct (map_result f xs) as [ys|e'']; simpl; [done|].
    intros [= ->]. destruct IH as (x' & Hin & Hx'); [done|].
    exists x'. split; [by apply list_elem_of_further|done].
  - intros [= ->]. exists x. split; [apply list_elem_of_here|done].
Qed.

Section FaceSplitterMore.
Context {num : Type} `{Countable num}.
Implicit Types (mesh : Mesh (num:=num)) (face : MeshPolygon).
Implicit Types (uv : list (list (UV (num:=num)))).

Lemma py_index_Raise {A} (l : list A) i e :
  py_index l i = Raise e -> e = IndexError /\ length l <= i.
Proof.
  unfold py_index. destruct (l !! i) eqn:Hl; [done|].
  intros [= <-]. split; [done|]. by apply lookup_ge_None.
Qed.

Lemma corner_Ok (fv : list nat) uv k (c : CornerKey (num:=num)) :
  corner fv uv k = Ok c <->
  fv !! k = Some c.1 /\ Forall2 (fun l u => l !! k = Some u) uv c.2.
Proof.
  unfold corner. rewrite bind_Ok. split.
  - intros (v & Hv%py_index_Ok & (us & Hus%map_result_Ok & [= <-])%bind_Ok).
    simpl. split; [done|].
    eapply Forall2_impl; [exact Hus|]. intros l u. by rewrite py_index_Ok.
  - destruct c as [v us]. simpl. intros [Hv Hus].
    exists v. split; [by apply py_index_Ok|].
    apply bind_Ok. exists us. split; [|done]. apply map_result_Ok.
    eapply Forall2_impl; [exact Hus|]. intros l u. by rewrite py_index_Ok.
Qed.

Lemma corner_total (fv : list nat) uv k :
  k < length fv -> Forall (fun l => k < length l) uv ->
  is_Ok (corner fv uv k).
Proof.
  intros Hk Huv. unfold corner.
  destruct (py_index_lt fv k Hk) as [v ->]. simpl.
  destruct (map_result_total (fun l => py_index l k) uv) as [us ->];
    [|by eexists].
  eapply Forall_impl; [exact Huv|]. intros l. apply py_index_lt.
Qed.

Lemma corner_Raise (fv : list nat) uv k e :
  corner fv uv k = Raise e -> e = IndexError.
Proof.
  unfold corner. destruct (py_index fv k) as [v|e'] eqn:Hv; simpl.
  - destruct (map_result _ uv) as [us|e'] eqn:Hus; simpl; [done|].
    intros [= ->]. apply map_result_Raise in Hus as (l & _ & Hl).
    by apply py_index_Raise in Hl as [-> _].
  - intros [= ->]. by apply py_index_Raise in Hv as [-> _].
Qed.

(** [split_face] raises nothing but [IndexError]. *)
Lemma split_face_Raise mesh index e :
  split_face mesh index = Raise e -> e = IndexError.
Proof.
  unfold split_face.
  destruct (py_index (polygons mesh) index) as [face|e'] eqn:Hf; simpl.
  - intros (i & _ & Hi)%map_result_Raise.
    destruct (corner _ _ 0) as [c0|e0] eqn:H0; simpl in Hi;
      [|injection Hi as ->; by eapply corner_Raise].
    destruct (corner _ _ i) as [c1|e1] eqn:H1; simpl in Hi;
      [|injection Hi as ->; by eapply corner_Raise].
    destruct (corner _ _ (i + 1)) as [c2|e2] eqn:H2; simpl in Hi; [done|].
    injection Hi as ->. by eapply corner_Raise.
  - intros [= ->]. by apply py_index_Raise in Hf as [-> _].
Qed.

(** A face of fewer than three vertices gives no triangle, whatever the
    uv layers hold. *)
Lemma split_face_short mesh index face :
  polygons mesh !! index = Some face -> length (vertices face) < 3 ->
  split_face mesh index = Ok [].
Proof.
  intros Hf Hlen. unfold split_face, py_index. rewrite Hf. simpl.
  replace (length (vertices face) - 2) with 0 by lia. reflexivity.
Qed.

Lemma split_face_outcome mesh index face :
  polygons mesh !! index = Some face ->
  3 <= length (vertices face) ->
  (face_covered mesh face -> is_Ok (split_face mesh index)) /\
  (~ face_covered mesh face -> split_face mesh index = Raise IndexError).
Proof.
  intros Hf HN. split.
  - intros Hcov. unfold split_face, py_index. rewrite Hf. simpl.
    apply map_result_total, Forall_forall. intros i Hi.
    apply list_elem_of_In, in_seq in Hi.
    assert (forall k, k < length (vertices face) ->
              is_Ok (corner (vertices face)
                       (map (fun layer => py_slice layer (loop_start face)
                               (loop_start face + loop_total face))
                            (take 2 (uv_layers mesh))) k)) as Hc.
    { intros k Hk. apply corner_total; [done|].
      apply Forall_map. eapply Forall_impl; [exact Hcov|].
      simpl. intros l Hl. lia. }
    destruct (Hc 0) as [c0 ->]; [lia|].
    destruct (Hc i) as [c1 ->]; [lia|].
    destruct (Hc (i + 1)) as [c2 ->]; [lia|]. simpl. by eexists.
  - intros Hcov. destruct (split_face mesh index) as [tris|e] eqn:Hrun;
      [|by apply split_face_Raise in Hrun as ->].
    exfalso. apply Hcov. clear Hcov.
    unfold split_face, py_index in Hrun. rewrite Hf in Hrun. simpl in Hrun.
    apply map_result_Ok in Hrun.
    assert (seq 1 (length (vertices face) - 2)
              !! (length (vertices face) - 3)
            = Some (length (vertices face) - 2)) as Hseq.
    { rewrite lookup_seq. split; [f_equal|]; lia. }
    destruct (Forall2_lookup_l _ _ _ _ _ Hrun Hseq) as (tri & _ & Hbody).
    apply bind_Ok in Hbody as (c0 & _ & Hbody).
    apply bind_Ok in Hbody as (c1 & _ & Hbody).
    apply bind_Ok in Hbody as (c2 & H2 & _).
    apply corner_Ok in H2 as [_ Hlast].
    apply Forall2_Forall_l with (Q := fun l : list (UV (num:=num)) =>
                                        length (vertices face) <= length l)
      in Hlast.
    + unfold face_covered. rewrite Forall_map in Hlast. exact Hlast.
    + apply Forall_forall. intros u _ l Hl.
      apply lookup_lt_Some in Hl. lia.
Qed.

(** X1: for a face of three or more vertices, [split_face] returns
    triangles when each of the first two uv layers has, in the slice of
    the face, a loop for every vertex of the face, and raises
    [IndexError] when one of them has not. *)
Theorem split_face_raises_iff mesh index face :
  polygons mesh !! index = Some face ->
  3 <= length (vertices face) ->
  (face_covered mesh face -> is_Ok (split_face mesh index)) /\
  (~ face_covered mesh face -> split_face mesh index = Raise IndexError).
Proof. exact (split_face_outcome mesh index face). Qed.

Lemma split_face_keys mesh index face tris :
  polygons mesh !! index = Some face ->
  split_face mesh index = Ok tris ->
  Forall (Forall (fun k : CornerKey =>
                    k.1 ∈ vertices face /\
                    length k.2 = min 2 (length (uv_layers mesh)))) tris.
Proof.
  intros Hf Hrun. unfold split_face, py_index in Hrun.
  rewrite Hf in Hrun. simpl in Hrun. apply map_result_Ok in Hrun.
  eapply Forall2_Forall_r; [exact Hrun|].
  apply Forall_forall. intros i _ tri Hbody.
  apply bind_Ok in Hbody as (c0 & H0 & Hbody).
  apply bind_Ok in Hbody as (c1 & H1 & Hbody).
  apply bind_Ok in Hbody as (c2 & H2 & [= <-]).
  assert (forall k c,
            corner (vertices face)
              (map (fun layer => py_slice layer (loop_start face)
                      (loop_start face + loop_total face))
                   (take 2 (uv_layers mesh))) k = Ok c ->
            c.1 ∈ vertices face /\
            length c.2 = min 2 (length (uv_layers mesh))) as Hc.
  { intros k c [Hv Hus]%corner_Ok. split.
    - apply list_elem_of_lookup. eauto.
    - apply Forall2_length in Hus.
      by rewrite <- Hus, length_map, length_take. }
  repeat constructor; by eapply Hc.
Qed.

(** X2: every corner of every triangle that [split_face] returns names a
    vertex of the face and carries one uv per layer read: two when the
    mesh has two or more layers, else as many as the mesh has. *)
Theorem split_face_corners mesh index face tris :
  polygons mesh !! index = Some face ->
  split_face mesh index = Ok tris ->
  Forall (Forall (fun k : CornerKey =>
                    k.1 ∈ vertices face /\
                    length k.2 = min 2 (length (uv_layers mesh)))) tris.
Proof. exact (split_face_keys mesh index face tris). Qed.

Lemma seq_lookup_all {A} (l : list A) :
  Forall2 (fun i x => l !! i = Some x) (seq 0 (length l)) l.
Proof.
  apply Forall2_same_length_lookup_2; [by rewrite length_seq|].
  intros i j x Hj Hx. apply lookup_seq in Hj as [-> _]. done.
Qed.

(** [make_tris] on one submesh whose indices name the faces [faces]. *)
Lemma make_tris_submesh_spec mesh (sm : list nat) (faces : list MeshPolygon) :
  Forall2 (fun i face => polygons mesh !! i = Some face) sm faces ->
  Forall (fun face => 3 <= length (vertices face) -> face_covered mesh face)
         faces ->
  exists tris,
    make_tris_submesh mesh sm = Ok tris /\
    length tris
    = sum_list (map (fun face => length (vertices face) - 2) faces) /\
    Forall (Forall (fun k : CornerKey =>
                      (exists face, face ∈ faces /\ k.1 ∈ vertices face) /\
                      length k.2 = min 2 (length (uv_layers mesh)))) tris /\
    Forall (fun tri => length tri = 3) tris.
Proof.
  induction 1 as [|i face sm faces Hi _ IH]; intros Hcov; simpl.
  - exists []. by repeat split.
  - inversion Hcov as [|? ? Hface Hcov']; subst.
    destruct (IH Hcov') as (rest & -> & Hlen & Hkeys & Htri).
    assert (exists tris, split_face mesh i = Ok tris /\
              length tris = length (vertices face) - 2) as (tris & Hrun & Hn).
    { destruct (decide (length (vertices face) < 3)) as [Hshort|Hlong].
      - exists []. split; [by apply (split_face_short mesh i face)|].
        simpl. lia.
      - destruct (split_face_outcome mesh i face Hi) as [Hok _]; [lia|].
        destruct Hok as [tris Hrun]; [apply Hface; lia|].
        exists tris. split; [done|].
        unfold split_face, py_index in Hrun. rewrite Hi in Hrun.
        simpl in Hrun. apply map_result_length in Hrun.
        by rewrite length_seq in Hrun. }
    rewrite Hrun. simpl. exists (tris ++ rest). split; [done|].
    split; [rewrite length_app; lia|]. split.
    + apply Forall_app. split.
      * pose proof (split_face_keys mesh i face tris Hi Hrun) as Hc.
        eapply Forall_impl; [exact Hc|]. intros tri Htr.
        eapply Forall_impl; [exact Htr|]. intros k [Hk1 Hk2].
        split; [|done]. exists face. split; [apply list_elem_of_here|done].
      * eapply Forall_impl; [exact Hkeys|]. intros tri Htr.
        eapply Forall_impl; [exact Htr|].
        intros k [(f & Hf & Hk1) Hk2]. split; [|done].
        exists f. split; [by apply list_elem_of_further|done].
    + apply Forall_app. split; [by eapply split_face_triangles|done].
Qed.

Lemma make_tris_build mesh :
  faces_covered mesh ->
  exists tris,
    make_tris mesh (build_submeshes mesh) = Ok [tris] /\
    length tris
    = sum_list (map (fun face => length (vertices face) - 2)
                    (polygons mesh)) /\
    Forall (fun tri => length tri = 3) tris /\
    Forall (Forall (fun k : CornerKey =>
                      (exists face, face ∈ polygons mesh /\
                                    k.1 ∈ vertices face) /\
                      length k.2 = min 2 (length (uv_layers mesh)))) tris.
Proof.
  intros Hcov.
  destruct (make_tris_submesh_spec mesh (seq 0 (length (polygons mesh)))
              (polygons mesh) (seq_lookup_all _) Hcov)
    as (tris & Hrun & Hlen & Hkeys & Htri).
  exists tris. unfold make_tris, build_submeshes. simpl. rewrite Hrun.
  by repeat split.
Qed.

(** X3: on a mesh whose faces are covered by the uv layers,
    [make_tris] after [build_submeshes] returns one submesh; it holds
    [N - 2] triangles for every face of [N >= 3] vertices and none for a
    smaller face, every triangle has three corners, and every corner
    names a vertex of a face and carries one uv per layer read. *)
Theorem make_tris_count mesh :
  faces_covered mesh ->
  exists tris,
    make_tris mesh (build_submeshes mesh) = Ok [tris] /\
    length tris
    = sum_list (map (fun face => length (vertices face) - 2)
                    (polygons mesh)) /\
    Forall (fun tri => length tri = 3) tris /\
    Forall (Forall (fun k : CornerKey =>
                      (exists face, face ∈ polygons mesh /\
                                    k.1 ∈ vertices face) /\
                      length k.2 = min 2 (length (uv_layers mesh)))) tris.
Proof. exact (make_tris_build mesh). Qed.

End FaceSplitterMore.

(** X1, at the quad of [quad_mesh]. *)
Lemma split_face_raises_iff_witness :
  polygons quad_mesh !! 0 = Some quad_face /\
  3 <= length (vertices quad_face) /\
  (face_covered quad_mesh quad_face -> is_Ok (split_face quad_mesh 0)) /\
  (~ face_covered quad_mesh quad_face ->
   split_face quad_mesh 0 = Raise IndexError).
Proof.
  split; [reflexivity|]. split; [simpl; lia|].
  apply (split_face_raises_iff quad_mesh 0 quad_face); [reflexivity|simpl; lia].
Defined.

(** X2, at the quad of [quad_mesh]. *)
Lemma split_face_corners_witness :
  exists tris,
    polygons quad_mesh !! 0 = Some quad_face /\
    split_face quad_mesh 0 = Ok tris /\
    Forall (Forall (fun k : CornerKey =>
                      k.1 ∈ vertices quad_face /\
                      length k.2 = min 2 (length (uv_layers quad_mesh))))
           tris.
Proof.
  eexists. split; [reflexivity|]. split; [reflexivity|].
  apply (split_face_corners quad_mesh 0 quad_face); reflexivity.
Defined.

(** X3, at [tri_mesh]. *)
Lemma make_tris_count_witness :
  faces_covered tri_mesh /\
  exists tris,
    make_tris tri_mesh (build_submeshes tri_mesh) = Ok [tris] /\
    length tris
    = sum_list (map (fun face => length (vertices face) - 2)
                    (polygons tri_mesh)) /\
    Forall (fun tri => length tri = 3) tris /\
    Forall (Forall (fun k : CornerKey =>
                      (exists face, face ∈ polygons tri_mesh /\
                                    k.1 ∈ vertices face) /\
                      length k.2 = min 2 (length (uv_layers tri_mesh)))) tris.
Proof.
  assert (faces_covered tri_mesh) as Hcov.
  { repeat constructor; simpl; lia. }
  split; [exact Hcov|]. exact (make_tris_count tri_mesh Hcov).
Defined.

(** ** [make_verts] *)

Lemma map_accum_Raise {S X Y} (body : S -> X -> result (S * Y)) xs st e :
  map_accum body st xs = Raise e ->
  exists st' x, x ∈ xs /\ body st' x = Raise e.
Proof.
  revert st. induction xs as [|x xs IH]; intros st; simpl; [done|].
  destruct (body st x) as [[st1 y]|e'] eqn:Hx; simpl.
  - destruct (map_accum body st1 xs) as [[st2 ys]|e''] eqn:Hxs; simpl;
      [done|].
    intros [= ->]. destruct (IH st1 Hxs) as (st' & x' & Hin & Hx').
    exists st', x'. split; [by apply list_elem_of_further|done].
  - intros [= ->]. exists st, x. split; [apply list_elem_of_here|done].
Qed.

Section DeduplicatorMore.
Context {num : Type} `{Countable num}.
Implicit Types (mesh : Mesh (num:=num)) (vs : VertexStream (num:=num)).
Implicit Types (k : CornerKey (num:=num)).
Implicit Types (st : DedupState (num:=num)).
Implicit Types (sm : list (list (CornerKey (num:=num)))).
Implicit Types (sms : list (list (list (CornerKey (num:=num))))).

Lemma stream_prefix_refl vs : stream_prefix vs vs.
Proof. by repeat split. Qed.

Lemma stream_prefix_trans vs1 vs2 vs3 :
  stream_prefix vs1 vs2 -> stream_prefix vs2 vs3 -> stream_prefix vs1 vs3.
Proof.
  intros (? & ? & ? & ?) (? & ? & ? & ?). repeat split; by etrans.
Qed.

Lemma stream_entry_prefix mesh vs vs' k i :
  stream_prefix vs vs' -> stream_entry mesh vs k i ->
  stream_entry mesh vs' k i.
Proof.
  intros (Hv & Hn & Hu & Hg) (mv & Hmv & H1 & H2 & H3 & H4).
  exists mv. split; [done|].
  repeat split; by eapply prefix_lookup_Some.
Qed.

(** A corner that [dedup_corner] accepts names a vertex of the mesh, and
    [dedup_corner] raises nothing but [IndexError]. *)
Lemma dedup_corner_Raise mesh st k e :
  dedup_corner mesh st k = Raise e ->
  e = IndexError /\ length (mesh_vertices mesh) <= k.1.
Proof.
  destruct st as [vs d]. unfold dedup_corner. case_decide as Hk.
  - destruct (py_index (mesh_vertices mesh) k.1) as [mv|e'] eqn:Hmv; simpl.
    + unfold dict_get. by rewrite lookup_insert_eq.
    + intros [= ->]. unfold py_index in Hmv.
      destruct (mesh_vertices mesh !! k.1) eqn:Hl; [done|].
      injection Hmv as <-. split; [done|]. by apply lookup_ge_None.
  - simpl. unfold dict_get. by destruct (d !! k).
Qed.

Lemma dedup_corner_content mesh lo K st k st' i :
  k ∈ K -> dict_inv lo K st -> content_inv mesh lo st ->
  dedup_corner mesh st k = Ok (st', i) ->
  content_inv mesh lo st' /\ stream_prefix st.1 st'.1.
Proof.
  destruct st as [vs d].
  intros HK ((Hn & Hu & Hg) & Hlen & Hdom & Hrng & Hinj) [Hent Hsur].
  simpl in *. unfold dedup_corner. case_decide as Hk.
  - intros ([vs1 d1] & (mv & Hmv%py_index_Ok & [= <- <-])%bind_Ok &
            (i' & Hget & [= <- <-])%bind_Ok)%bind_Ok.
    simpl in *. split; [split|].
    + simpl. intros k' j. rewrite lookup_insert. case_decide as Hkk.
      * intros [= <-]. subst k'. exists mv. split; [done|]. simpl.
        repeat split; by apply list_lookup_middle.
      * intros Hj. apply Hent in Hj as (mv' & ? & ? & ? & ? & ?).
        exists mv'. split; [done|]. simpl.
        repeat split; by apply lookup_app_l_Some.
    + simpl. intros j. rewrite length_app. simpl. intros Hj.
      destruct (decide (j = length (verts vs))) as [->|Hne].
      * exists k. by rewrite lookup_insert_eq.
      * destruct (Hsur j) as [k' Hk']; [lia|].
        exists k'. rewrite lookup_insert_ne; [done|]. congruence.
    + repeat split; simpl; by apply prefix_app_r.
  - intros ([vs1 d1] & [= <- <-] & (i' & _ & [= <- <-])%bind_Ok)%bind_Ok.
    simpl. split; [by split|apply stream_prefix_refl].
Qed.

(** The loops over the triangles and corners of one submesh keep the
    dict, the stream and the relation of the two. *)
Definition full_inv mesh (lo : nat) (K : gset (CornerKey (num:=num))) st
  : Prop :=
  dict_inv lo K st /\ content_inv mesh lo st.

Definition full_le st st' : Prop :=
  dict_le st st' /\ stream_prefix st.1 st'.1.

Lemma full_le_refl st : full_le st st.
Proof. split; [apply dict_le_refl|apply stream_prefix_refl]. Qed.

Lemma full_le_trans st1 st2 st3 :
  full_le st1 st2 -> full_le st2 st3 -> full_le st1 st3.
Proof.
  intros [? ?] [? ?].
  split; [by eapply dict_le_trans|by eapply stream_prefix_trans].
Qed.

Lemma dedup_tri_content mesh lo K st (ft : list (CornerKey (num:=num)))
    st' tv :
  Forall (fun k => k ∈ K) ft -> full_inv mesh lo K st ->
  dedup_tri mesh st ft = Ok (st', tv) ->
  full_inv mesh lo K st' /\ full_le st st' /\
  Forall2 (fun k i => st'.2 !! k = Some i) ft tv.
Proof.
  intros HK Hinv Hrun. unfold dedup_tri in Hrun.
  eapply (map_accum_inv (full_inv mesh lo K) full_le
            (fun st k i => st.2 !! k = Some i));
    [apply full_le_refl|apply full_le_trans| | |exact Hinv|exact Hrun].
  - intros s1 s2 k i [Hle _]. by apply dict_le_lookup.
  - intros s k s1 i Hin [Hd Hc] Hstep.
    assert (k ∈ K) as HkK by by eapply Forall_forall in HK.
    destruct (dedup_corner_spec _ _ _ _ _ _ _ HkK Hd Hstep) as (Hd1 & Hle & Hq).
    destruct (dedup_corner_content _ _ _ _ _ _ _ HkK Hd Hc Hstep) as (Hc1 & Hp).
    split; [by split|]. split; [by split|done].
Qed.

Lemma dedup_tris_content mesh lo K st sm st' (ism : list (list nat)) :
  Forall (Forall (fun k => k ∈ K)) sm -> full_inv mesh lo K st ->
  map_accum (dedup_tri mesh) st sm = Ok (st', ism) ->
  full_inv mesh lo K st' /\ full_le st st' /\
  Forall2 (Forall2 (fun k i => st'.2 !! k = Some i)) sm ism.
Proof.
  intros HK Hinv Hrun.
  eapply (map_accum_inv (full_inv mesh lo K) full_le
            (fun st ft tv => Forall2 (fun k i => st.2 !! k = Some i) ft tv));
    [apply full_le_refl|apply full_le_trans| | |exact Hinv|exact Hrun].
  - intros s1 s2 ft tv [Hle _] Hft.
    eapply Forall2_impl; [done|]. intros k i. by apply dict_le_lookup.
  - intros s ft s1 tv Hin Hs. apply dedup_tri_content; [|done].
    by eapply Forall_forall in HK.
Qed.

(** One submesh: every rewritten corner has its data at its index, and
    every index the submesh added to the stream is used by a corner. *)
Lemma dedup_submesh_content mesh vs sm vs' (ism : list (list nat)) :
  stream_aligned vs ->
  dedup_submesh mesh vs sm = Ok (vs', ism) ->
  stream_prefix vs vs' /\
  (forall t c k i,
     sm !! t ≫= (.!! c) = Some k -> ism !! t ≫= (.!! c) = Some i ->
     stream_entry mesh vs' k i) /\
  (forall i, length (verts vs) <= i < length (verts vs') ->
             exists t c, ism !! t ≫= (.!! c) = Some i).
Proof.
  intros Hal ([[vs1 d] ism1] & Hrun & [= <- <-])%bind_Ok.
  destruct (dedup_tris_content mesh (length (verts vs)) (submesh_keys sm)
              (vs, ∅) sm (vs1, d) ism1)
    as ([Hd [Hent Hsur]] & [_ Hpre] & Hout); [| |done|].
  - apply Forall_forall. intros ft Hft. apply Forall_forall. intros k Hk.
    apply submesh_keys_spec. eauto.
  - split.
    + unfold dict_inv; simpl. rewrite map_size_empty, dom_empty_L.
      split; [done|]. split; [lia|]. split; [apply empty_subseteq|].
      split; [intros k i|intros k1 k2 i]; by rewrite lookup_empty.
    + split; simpl; [intros k i; by rewrite lookup_empty|]. intros i. lia.
  - simpl in *. split; [done|]. split.
    + intros t c k i (ft & Hft & Hk)%bind_Some (tv & Htv & Hi)%bind_Some.
      destruct (Forall2_lookup_l _ _ _ _ _ Hout Hft) as (tv' & Htv' & Hrel).
      assert (tv' = tv) as -> by congruence.
      destruct (Forall2_lookup_l _ _ _ _ _ Hrel Hk) as (i' & Hi' & Hdk).
      assert (i' = i) as -> by congruence. by apply Hent.
    + intros i Hi. destruct (Hsur i Hi) as [k Hk].
      destruct Hd as (_ & _ & Hdom & _). simpl in Hdom.
      assert (k ∈ submesh_keys sm) as (ft & Hft & Hkft)%submesh_keys_spec.
      { apply Hdom, elem_of_dom. eauto. }
      apply list_elem_of_lookup in Hft as [t Ht].
      apply list_elem_of_lookup in Hkft as [c Hc].
      destruct (Forall2_lookup_l _ _ _ _ _ Hout Ht) as (tv & Htv & Hrel).
      destruct (Forall2_lookup_l _ _ _ _ _ Hrel Hc) as (i' & Hi' & Hdk).
      assert (i' = i) as -> by congruence.
      exists t, c. rewrite Htv. exact Hi'.
Qed.

Lemma dedup_submeshes_content mesh sms : forall vs vs' isms,
  stream_aligned vs ->
  map_accum (dedup_submesh mesh) vs sms = Ok (vs', isms) ->
  stream_prefix vs vs' /\
  (forall s t c k i,
     corner_at sms s t c = Some k -> corner_at isms s t c = Some i ->
     stream_entry mesh vs' k i) /\
  (forall i, length (verts vs) <= i < length (verts vs') ->
             exists s t c, corner_at isms s t c = Some i).
Proof.
  induction sms as [|sm sms IH]; intros vs vs' isms Hal.
  - intros [= <- <-]. split; [apply stream_prefix_refl|].
    split; [by intros [|?] ? ? ? ?|]. intros i. lia.
  - intros (vs1 & ism & vs2 & isms1 & Hsm & Hsms & [= -> ->])%map_accum_Ok_cons.
    destruct (dedup_submesh_spec _ _ _ _ _ Hal Hsm) as (Hal1 & _).
    destruct (dedup_submesh_content _ _ _ _ _ Hal Hsm) as (Hp1 & Hent1 & Hsur1).
    destruct (IH _ _ _ Hal1 Hsms) as (Hp2 & Hent2 & Hsur2).
    split; [by eapply stream_prefix_trans|]. split.
    + intros [|s] t c k i Hk Hi.
      * eapply stream_entry_prefix; [exact Hp2|].
        exact (Hent1 t c k i Hk Hi).
      * by eapply Hent2.
    + intros i Hi.
      destruct (decide (i < length (verts vs1))) as [Hlt|Hge].
      * destruct (Hsur1 i) as (t & c & Htc); [lia|].
        exists 0, t, c. exact Htc.
      * destruct (Hsur2 i) as (s & t & c & Hstc); [lia|]. by exists (S s), t, c.
Qed.

Lemma make_verts_Raise mesh sms e :
  make_verts mesh sms = Raise e -> e = IndexError.
Proof.
  intros (vs & sm & _ & Hsm)%map_accum_Raise.
  unfold dedup_submesh in Hsm.
  destruct (map_accum (dedup_tri mesh) _ sm) as [[st ism]|e'] eqn:Htris;
    simpl in Hsm; [done|].
  injection Hsm as ->.
  apply map_accum_Raise in Htris as (st & ft & _ & Hft).
  apply map_accum_Raise in Hft as (st1 & k & _ & Hk).
  by apply dedup_corner_Raise in Hk as [-> _].
Qed.

Lemma make_verts_lookup_aux mesh sms vs (isms : list (list (list nat))) :
  make_verts mesh sms = Ok (vs, isms) ->
  forall s t c k,
    corner_at sms s t c = Some k ->
    exists i, corner_at isms s t c = Some i /\ stream_entry mesh vs k i.
Proof.
  intros Hrun s t c k Hk.
  destruct (make_verts_rel _ _ _ _ Hrun) as [_ Hrel].
  destruct (dedup_rel_corner _ _ _ _ s t c Hrel) as [Hl _].
  destruct (Hl k Hk) as [i Hi]. exists i. split; [done|].
  destruct (dedup_submeshes_content mesh sms empty_stream vs isms)
    as (_ & Hent & _); [by repeat split|done|].
  by eapply Hent.
Qed.

Lemma make_verts_no_orphan_aux mesh sms vs (isms : list (list (list nat))) :
  make_verts mesh sms = Ok (vs, isms) ->
  forall i, i < length (verts vs) ->
    exists s t c, corner_at isms s t c = Some i.
Proof.
  intros Hrun i Hi.
  destruct (dedup_submeshes_content mesh sms empty_stream vs isms)
    as (_ & _ & Hsur); [by repeat split|done|].
  apply Hsur. simpl. lia.
Qed.

(** X4: when [make_verts] returns, every corner of the submeshes was
    rewritten to an index at which the stream holds the data of that
    corner: the position, normal and bone-group references of its vertex,
    and its own uvs. *)
Theorem make_verts_lookup mesh sms vs (isms : list (list (list nat))) :
  make_verts mesh sms = Ok (vs, isms) ->
  forall s t c k,
    corner_at sms s t c = Some k ->
    exists i, corner_at isms s t c = Some i /\ stream_entry mesh vs k i.
Proof.
  intros Hrun. exact (make_verts_lookup_aux mesh sms vs isms Hrun).
Qed.

(** X5: the stream that [make_verts] returns has no vertex that is not
    used: every index below its length occurs in a rewritten triangle. *)
Theorem make_verts_no_orphan mesh sms vs (isms : list (list (list nat))) :
  make_verts mesh sms = Ok (vs, isms) ->
  forall i, i < length (verts vs) ->
    exists s t c, corner_at isms s t c = Some i.
Proof.
  intros Hrun. exact (make_verts_no_orphan_aux mesh sms vs isms Hrun).
Qed.

(** X6: [make_verts] returns exactly when every corner names a vertex of
    the mesh, and raises [IndexError] otherwise. *)
Theorem make_verts_raises_iff mesh sms :
  (is_Ok (make_verts mesh sms) <-> corners_wf mesh sms) /\
  (make_verts mesh sms = Raise IndexError <-> ~ corners_wf mesh sms).
Proof.
  assert (is_Ok (make_verts mesh sms) -> corners_wf mesh sms) as Hwf.
  { intros [[vs isms] Hrun]. apply corner_at_Forall. intros s t c k Hk.
    destruct (make_verts_lookup_aux mesh sms vs isms Hrun s t c k Hk)
      as (i & _ & mv & Hmv & _).
    by apply lookup_lt_Some in Hmv. }
  split; split.
  - exact Hwf.
  - apply make_verts_total.
  - intros Hrun Hc. apply make_verts_total in Hc as [r Hr]. congruence.
  - intros Hc. destruct (make_verts mesh sms) as [r|e] eqn:Hrun.
    + exfalso. apply Hc, Hwf. by eexists.
    + by apply make_verts_Raise in Hrun as ->.
Qed.

End DeduplicatorMore.

(** X4, at the two submeshes over [tri_mesh]. *)
Lemma make_verts_lookup_witness :
  exists vs isms,
    make_verts tri_mesh two_submeshes = Ok (vs, isms) /\
    forall s t c k,
      corner_at two_submeshes s t c = Some k ->
      exists i, corner_at isms s t c = Some i /\
                stream_entry tri_mesh vs k i.
Proof.
  eexists _, _. split; [vm_compute; reflexivity|].
  apply (make_verts_lookup tri_mesh two_submeshes). vm_compute. reflexivity.
Defined.

(** X5, at the two submeshes over [tri_mesh]. *)
Lemma make_verts_no_orphan_witness :
  exists vs isms,
    make_verts tri_mesh two_submeshes = Ok (vs, isms) /\
    forall i, i < length (verts vs) ->
      exists s t c, corner_at isms s t c = Some i.
Proof.
  eexists _, _. split; [vm_compute; reflexivity|].
  apply (make_verts_no_orphan tri_mesh two_submeshes). vm_compute. reflexivity.
Defined.

(** ** [make_tangents] *)

Section TangentBuilderMore.
Context {num : Type} {ops : FloatOps num}.
Implicit Types (h : list (Vec3 (num:=num))) (st : TangentState (num:=num)).
Implicit Types (verts normals : list (Vec3 (num:=num))).
Implicit Types (uvs : list (UV (num:=num))).

Lemma iadd_cell_Raise (cells : list nat) k (d : Vec3 (num:=num)) h e :
  iadd_cell cells k d h = Raise e -> e = IndexError.
Proof.
  unfold iadd_cell. destruct (py_index cells k) as [l|e'] eqn:Hl; [done|].
  simpl. intros [= ->]. by apply py_index_Raise in Hl as [-> _].
Qed.

Ltac raise_index H :=
  repeat match type of H with
  | (py_index ?l ?i ≫= _) = Raise _ =>
      let Hl := fresh "Hl" in
      destruct (py_index l i) eqn:Hl; simpl in H;
      [|injection H as ->; by apply py_index_Raise in Hl as [-> _]]
  | (iadd_cell ?c ?k ?d ?h ≫= _) = Raise _ =>
      let Hl := fresh "Hl" in
      destruct (iadd_cell c k d h) as [[? ?]|?] eqn:Hl; simpl in H;
      [|injection H as ->; by apply iadd_cell_Raise in Hl]
  end.

(** With the float fact [zero_is_degenerate], the body of the triangle
    loop raises nothing but [IndexError]: the division is never by zero. *)
Lemma accumulate_tri_Raise verts uvs st tri e :
  zero_is_degenerate ->
  accumulate_tri verts uvs st tri = Raise e -> e = IndexError.
Proof.
  intros Hzero Hrun. unfold accumulate_tri in Hrun.
  raise_index Hrun.
  match type of Hrun with
  | (if flt (fmul ?r ?r) feps then _ else _) = _ =>
      destruct (flt (fmul r r) feps) eqn:Hr; [done|];
      assert (fis_zero r = false) as Hz
  end.
  { match goal with |- fis_zero ?r = false =>
      destruct (fis_zero r) eqn:Hz; [|done] end.
    apply Hzero in Hz. unfold degenerate in Hz. congruence. }
  rewrite !vdiv_nonzero in Hrun by done. simpl in Hrun.
  raise_index Hrun. done.
Qed.

Lemma accumulate_tri_Ok_range verts uvs st tri st' :
  accumulate_tri verts uvs st tri = Ok st' ->
  tri_in_range (length verts) (length uvs) tri.
Proof.
  unfold accumulate_tri. intros Hrun.
  apply bind_Ok in Hrun as (i0 & H0%py_index_Ok & Hrun).
  apply bind_Ok in Hrun as (v1 & Hv1%py_index_Ok & Hrun).
  apply bind_Ok in Hrun as (i1 & H1%py_index_Ok & Hrun).
  apply bind_Ok in Hrun as (v2 & Hv2%py_index_Ok & Hrun).
  apply bind_Ok in Hrun as (i2 & H2%py_index_Ok & Hrun).
  apply bind_Ok in Hrun as (v3 & Hv3%py_index_Ok & Hrun).
  apply bind_Ok in Hrun as (w1 & Hw1%py_index_Ok & Hrun).
  apply bind_Ok in Hrun as (w2 & Hw2%py_index_Ok & Hrun).
  apply bind_Ok in Hrun as (w3 & Hw3%py_index_Ok & _).
  destruct tri as [|j0 [|j1 [|j2 rest]]]; try done.
  simpl in H0, H1, H2. injection H0 as ->. injection H1 as ->.
  injection H2 as ->.
  exists i0, i1, i2, rest. split; [done|].
  split; repeat split; by eapply lookup_lt_Some.
Qed.

Lemma accumulate_tri_range_Ok verts uvs st tri :
  zero_is_degenerate ->
  shared_cells (length verts) st ->
  tri_in_range (length verts) (length uvs) tri ->
  exists st', accumulate_tri verts uvs st tri = Ok st' /\
              shared_cells (length verts) st'.
Proof.
  intros Hzero Hst (i0 & i1 & i2 & rest & -> & (H0 & H1 & H2) & (U0 & U1 & U2)).
  change (accumulate_tri verts uvs st (i0 :: i1 :: i2 :: rest))
    with (accumulate_tri verts uvs st [i0; i1; i2]).
  destruct (lookup_lt_is_Some_2 verts i0 H0) as [v1 Hv1].
  destruct (lookup_lt_is_Some_2 verts i1 H1) as [v2 Hv2].
  destruct (lookup_lt_is_Some_2 verts i2 H2) as [v3 Hv3].
  destruct (lookup_lt_is_Some_2 uvs i0 U0) as [w1 Hw1].
  destruct (lookup_lt_is_Some_2 uvs i1 U1) as [w2 Hw2].
  destruct (lookup_lt_is_Some_2 uvs i2 U2) as [w3 Hw3].
  destruct (degenerate (uv_det w1 w2 w3)) eqn:Hr.
  - exists st. split; [|done]. by eapply accumulate_tri_skip.
  - destruct (accumulate_tri_shared (length verts) verts uvs st i0 i1 i2
                v1 v2 v3 w1 w2 w3) as (st' & Hrun & Hsh & _); try done;
      [|by eauto].
    destruct (fis_zero (uv_det w1 w2 w3)) eqn:Hz; [|done].
    apply Hzero in Hz. congruence.
Qed.

(** X7: the body of the triangle loop returns exactly when the triangle
    has three entries (or more) that are positions of [verts] and of
    [uvs], and raises [IndexError] otherwise. *)
Theorem accumulate_tri_raises_iff verts uvs st tri :
  zero_is_degenerate ->
  shared_cells (length verts) st ->
  (is_Ok (accumulate_tri verts uvs st tri)
   <-> tri_in_range (length verts) (length uvs) tri) /\
  (accumulate_tri verts uvs st tri = Raise IndexError
   <-> ~ tri_in_range (length verts) (length uvs) tri).
Proof.
  intros Hzero Hst. split; split.
  - intros [st' Hrun]. by eapply accumulate_tri_Ok_range.
  - intros Hr.
    destruct (accumulate_tri_range_Ok verts uvs st tri) as (st' & Hrun & _);
      try done. by eexists.
  - intros Hrun Hr.
    destruct (accumulate_tri_range_Ok verts uvs st tri) as (st' & Hrun' & _);
      try done. congruence.
  - intros Hr. destruct (accumulate_tri verts uvs st tri) as [st'|e] eqn:Hrun.
    + exfalso. apply Hr. by eapply accumulate_tri_Ok_range.
    + by apply accumulate_tri_Raise in Hrun as ->.
Qed.

(** X8: when the triangle loops are done, every cell of [sdir] reads one
    and the same sum, and every cell of [tdir] one and the same sum,
    whichever triangles the vertex of the cell belongs to. *)
Theorem accumulate_cells_equal verts uvs
    (submeshes : list (list (list nat))) :
  zero_is_degenerate ->
  length verts <= length uvs ->
  tris_wf (length verts) submeshes ->
  exists st s t,
    accumulate verts uvs submeshes (tangent_init verts) = Ok st /\
    forall j, j < length verts ->
      cell_value (t_heap st) (sdir st) j = Some s /\
      cell_value (t_heap st) (tdir st) j = Some t.
Proof.
  intros Hzero Huvs Hwf.
  destruct (accumulate_total (length verts) verts uvs submeshes
              (tangent_init verts)) as (st & Hacc & Hs & Ht & Hh);
    [done..|apply tangent_init_shared|].
  destruct (lookup_lt_is_Some_2 (t_heap st) 0) as [s Hs0]; [lia|].
  destruct (lookup_lt_is_Some_2 (t_heap st) 1) as [t Ht1]; [lia|].
  exists st, s, t. split; [done|]. intros j Hj.
  unfold cell_value. rewrite Hs, Ht.
  by rewrite !lookup_replicate_2 by done.
Qed.

(** The final loop raises [IndexError] at a position that [sdir] does
    not have. *)
Lemma tangent_loop_Raise n (ixs : list (nat * Vec3 (num:=num))) :
  forall h (tangents : list (list num)),
  Exists (fun ix => n <= ix.1) ixs -> length h = 2 ->
  for_each (tangent_step (replicate n 0) (replicate n 1)) ixs (h, tangents)
  = Raise IndexError.
Proof.
  induction ixs as [|[i nrm] ixs IH]; intros h tangents Hex Hh.
  - by inversion Hex.
  - cbn [for_each]. destruct (decide (i < n)) as [Hi|Hi].
    + destruct (tangent_step_shared n h tangents i nrm Hi Hh)
        as (h1 & e & -> & Hh1 & _). cbn [mbind result_bind].
      apply IH; [|done]. inversion Hex as [? ? Hbad|]; subst; [|done].
      simpl in Hbad. lia.
    + unfold tangent_step, py_index.
      assert (replicate n 0 !! i = None) as ->; [|done].
      apply lookup_replicate_None. lia.
Qed.

(** X9: on well-formed triangles [make_tangents] returns one entry per
    normal when there are no more normals than vertices, and raises
    [IndexError] when there are more. *)
Theorem make_tangents_normals verts uvs normals
    (submeshes : list (list (list nat))) :
  zero_is_degenerate ->
  length verts <= length uvs ->
  tris_wf (length verts) submeshes ->
  (length normals <= length verts ->
   exists tangents,
     make_tangents verts uvs normals submeshes = Ok tangents /\
     length tangents = length normals) /\
  (length verts < length normals ->
   make_tangents verts uvs normals submeshes = Raise IndexError).
Proof.
  intros Hzero Huvs Hwf. split.
  - intros Hn.
    destruct (make_tangents_spec verts uvs normals submeshes)
      as (st & tangents & _ & Hmt & Hlen & _); try done.
    by exists tangents.
  - intros Hn.
    destruct (accumulate_total (length verts) verts uvs submeshes
                (tangent_init verts)) as (st & Hacc & Hs & Ht & Hh);
      [done..|apply tangent_init_shared|].
    unfold make_tangents. rewrite Hacc. simpl. rewrite Hs, Ht.
    rewrite tangent_loop_Raise; [done| |done].
    destruct (lookup_lt_is_Some_2 normals (length verts) Hn) as [nrm Hnrm].
    apply Exists_exists. exists (length verts, nrm). split; [|simpl; lia].
    apply list_elem_of_lookup. exists (length verts).
    unfold enumerate. apply lookup_zip_with_Some.
    exists (length verts), nrm. split; [done|]. split; [|done].
    apply lookup_seq. split; [done|lia].
Qed.

End TangentBuilderMore.

(** X7, at the triangle [[0; 1; 2]] over [tan_verts]. *)
Lemma accumulate_tri_raises_iff_witness :
  zero_is_degenerate (ops:=Q_ops) /\
  shared_cells (length tan_verts) (tangent_init tan_verts) /\
  (is_Ok (accumulate_tri tan_verts tan_uvs (tangent_init tan_verts) [0; 1; 2])
   <-> tri_in_range (length tan_verts) (length tan_uvs) [0; 1; 2]) /\
  (accumulate_tri tan_verts tan_uvs (tangent_init tan_verts) [0; 1; 2]
   = Raise IndexError
   <-> ~ tri_in_range (length tan_verts) (length tan_uvs) [0; 1; 2]).
Proof.
  split; [exact Q_zero_is_degenerate|].
  split; [apply tangent_init_shared|].
  apply (accumulate_tri_raises_iff tan_verts tan_uvs (tangent_init tan_verts)
           [0; 1; 2] Q_zero_is_degenerate (tangent_init_shared tan_verts)).
Defined.

(** X8, at the triangle [[0; 1; 2]] over [tan_verts]. *)
Lemma accumulate_cells_equal_witness :
  zero_is_degenerate (ops:=Q_ops) /\
  length tan_verts <= length tan_uvs /\
  tris_wf (length tan_verts) [[[0; 1; 2]]] /\
  exists st s t,
    accumulate tan_verts tan_uvs [[[0; 1; 2]]] (tangent_init tan_verts)
    = Ok st /\
    forall j, j < length tan_verts ->
      cell_value (t_heap st) (sdir st) j = Some s /\
      cell_value (t_heap st) (tdir st) j = Some t.
Proof.
  assert (tris_wf (length tan_verts) [[[0; 1; 2]]]) as Hwf.
  { repeat constructor. exists 0, 1, 2. simpl. repeat split; lia. }
  split; [exact Q_zero_is_degenerate|]. split; [simpl; lia|].
  split; [exact Hwf|].
  apply (accumulate_cells_equal tan_verts tan_uvs [[[0; 1; 2]]]
           Q_zero_is_degenerate); [simpl; lia|exact Hwf].
Defined.

(** X9, at the triangle [[0; 1; 2]] over [tan_verts]. *)
Lemma make_tangents_normals_witness :
  zero_is_degenerate (ops:=Q_ops) /\
  length tan_verts <= length tan_uvs /\
  tris_wf (length tan_verts) [[[0; 1; 2]]] /\
  (length tan_normals <= length tan_verts ->
   exists tangents,
     make_tangents tan_verts tan_uvs tan_normals [[[0; 1; 2]]] = Ok tangents /\
     length tangents = length tan_normals) /\
  (length tan_verts < length tan_normals ->
   make_tangents tan_verts tan_uvs tan_normals [[[0; 1; 2]]]
   = Raise IndexError).
Proof.
  assert (tris_wf (length tan_verts) [[[0; 1; 2]]]) as Hwf.
  { repeat constructor. exists 0, 1, 2. simpl. repeat split; lia. }
  split; [exact Q_zero_is_degenerate|]. split; [simpl; lia|].
  split; [exact Hwf|].
  apply (make_tangents_normals tan_verts tan_uvs tan_normals [[[0; 1; 2]]]
           Q_zero_is_degenerate); [simpl; lia|exact Hwf].
Defined.

(** ** [make_mesh] *)

Lemma corner_at_Forall_1 {A} (P : A -> Prop) (xs : list (list (list A)))
    s t c x :
  Forall (Forall (Forall P)) xs -> corner_at xs s t c = Some x -> P x.
Proof.
  intros HP (sm & Hs & (tri & Ht & Hc)%bind_Some)%bind_Some.
  eapply Forall_lookup_1; [|exact Hc].
  eapply Forall_lookup_1; [|exact Ht].
  by eapply Forall_lookup_1.
Qed.

Lemma map_result_all_Raise {X Y} (f : X -> result Y) xs e :
  xs <> [] -> Forall (fun x => f x = Raise e) xs ->
  map_result f xs = Raise e.
Proof.
  intros Hne Hall. destruct Hall as [|x xs Hx _]; [done|].
  simpl. by rewrite Hx.
Qed.

Section AssemblerMore.
Context {num : Type} `{Countable num} {ops : FloatOps num}.
Variable MuMesh_new : MuMesh (num:=num).
Implicit Types (mesh : Mesh (num:=num)) (vs : VertexStream (num:=num)).
Implicit Types (sms : list (list (list (CornerKey (num:=num))))).

(** The corners that [make_tris] returns carry one uv per layer read. *)
Lemma make_tris_submesh_keys mesh (sm : list nat) tris :
  make_tris_submesh mesh sm = Ok tris ->
  Forall (Forall (fun k : CornerKey (num:=num) =>
                    length k.2 = min 2 (length (uv_layers mesh)))) tris.
Proof.
  revert tris. induction sm as [|i sm IH]; intros tris; simpl.
  - by intros [= <-].
  - intros (ft & Hft & (rest & Hrest & [= <-])%bind_Ok)%bind_Ok.
    apply Forall_app. split; [|by apply IH].
    assert (exists face, polygons mesh !! i = Some face) as [face Hface].
    { unfold split_face in Hft.
      apply bind_Ok in Hft as (face & Hface%py_index_Ok & _). eauto. }
    pose proof (split_face_keys mesh i face ft Hface Hft) as Hc.
    eapply Forall_impl; [exact Hc|]. intros tri Htr.
    eapply Forall_impl; [exact Htr|]. by intros k [_ Hk].
Qed.

Lemma make_tris_keys mesh (submeshes : list (list nat)) sms :
  make_tris mesh submeshes = Ok sms ->
  Forall (Forall (Forall (fun k : CornerKey (num:=num) =>
                            length k.2 = min 2 (length (uv_layers mesh)))))
         sms.
Proof.
  unfold make_tris. intros Hrun%map_result_Ok.
  eapply Forall2_Forall_r; [exact Hrun|].
  apply Forall_forall. intros sm _ tris. apply make_tris_submesh_keys.
Qed.

(** Every uv entry of the stream is the uv list of a corner. *)
Lemma stream_uvs_keys mesh sms vs (isms : list (list (list nat)))
    (P : list (UV (num:=num)) -> Prop) :
  make_verts mesh sms = Ok (vs, isms) ->
  Forall (Forall (Forall (fun k : CornerKey (num:=num) => P k.2))) sms ->
  Forall P (uvs vs).
Proof.
  intros Hrun HP. apply Forall_lookup_2. intros i u Hu.
  destruct (make_verts_rel _ _ _ _ Hrun) as [(_ & Hlen & _) Hrel].
  destruct (make_verts_no_orphan_aux mesh sms vs isms Hrun i)
    as (s & t & c & Hi); [apply lookup_lt_Some in Hu; lia|].
  destruct (dedup_rel_corner _ _ _ _ s t c Hrel) as [_ Hr].
  destruct (Hr i Hi) as [_ [k Hk]].
  destruct (make_verts_lookup_aux mesh sms vs isms Hrun s t c k Hk)
    as (i' & Hi' & mv & _ & _ & _ & Hku & _).
  assert (i' = i) as -> by congruence.
  assert (u = k.2) as -> by congruence.
  by eapply (corner_at_Forall_1 (fun k : CornerKey (num:=num) => P k.2)).
Qed.

(** X10: [make_mesh] on a mesh with fewer than two uv layers whose
    deduplicated stream has two vertices or more raises [IndexError]:
    the tests on [len(uvs)] count vertices, and [uv[1]] (or [uv[0]], with
    no layer) is then read from a tuple that does not have it. *)
Theorem make_mesh_few_uv_layers (obj : BObject (num:=num)) sms vs
    (isms : list (list (list nat))) :
  make_tris (to_mesh obj) (build_submeshes (to_mesh obj)) = Ok sms ->
  make_verts (to_mesh obj) sms = Ok (vs, isms) ->
  2 <= length (verts vs) ->
  length (uv_layers (to_mesh obj)) < 2 ->
  make_mesh MuMesh_new obj = Raise IndexError.
Proof.
  intros Htris Hverts Hlen Hlayers.
  pose proof (stream_uvs_keys _ _ _ _
                (fun u => length u = min 2 (length (uv_layers (to_mesh obj))))
                Hverts (make_tris_keys _ _ _ Htris)) as Hu.
  destruct (make_verts_rel _ _ _ _ Hverts) as [(_ & Hul & _) _].
  assert (nonempty (uvs vs) = true) as Hne.
  { destruct (uvs vs); [simpl in Hul; lia|done]. }
  assert (forall j, length (uv_layers (to_mesh obj)) <= j ->
            map_result (fun uv : list (UV (num:=num)) => py_index uv j)
                       (uvs vs) = Raise IndexError) as Hbad.
  { intros j Hj. apply map_result_all_Raise; [by destruct (uvs vs)|].
    eapply Forall_impl; [exact Hu|]. intros u Hlu. unfold py_index.
    rewrite (lookup_ge_None_2 u j); [done|]. cbv beta in Hlu. lia. }
  unfold make_mesh. rewrite Htris. simpl. rewrite Hverts. simpl.
  rewrite Hne. rewrite !bool_decide_eq_true_2 by lia.
  destruct (length (uv_layers (to_mesh obj))) as [|[|n]] eqn:HL; [| |lia].
  - rewrite (Hbad 0) by lia. done.
  - destruct (map_result_total (fun uv : list (UV (num:=num)) => py_index uv 0)
                (uvs vs)) as [l0 Hl0].
    { eapply Forall_impl; [exact Hu|]. intros u Hlu. apply py_index_lt.
      simpl in Hlu. lia. }
    rewrite Hl0. simpl. rewrite (Hbad 1) by lia. done.
Qed.

(** X11: [make_mesh] on a mesh with two uv layers (or more) and a face
    of three vertices or more, whose faces are covered by the layers and
    name vertices of the mesh, returns a [MuMesh] with [verts],
    [normals], [uvs] and [tangents] of one length, with four components
    per tangent and with one submesh, whose indices are positions of
    [verts]; the baked mesh gets the attribute [groups]. *)
Theorem make_mesh_returns (obj : BObject (num:=num)) :
  zero_is_degenerate ->
  faces_covered (to_mesh obj) ->
  faces_in_range (to_mesh obj) ->
  2 <= length (uv_layers (to_mesh obj)) ->
  Exists (fun face => 3 <= length (vertices face)) (polygons (to_mesh obj)) ->
  exists mumesh g v n u t sub,
    make_mesh MuMesh_new obj = Ok (mumesh, set_mesh_groups g (to_mesh obj)) /\
    mu_verts mumesh = Some v /\ mu_normals mumesh = Some n /\
    mu_uvs mumesh = Some u /\ mu_tangents mumesh = Some t /\
    mu_submeshes mumesh = Some [sub] /\
    0 < length v /\
    length n = length v /\ length u = length v /\ length t = length v /\
    length g = length v /\
    Forall (fun e => length e = 4) t /\
    Forall (fun tri => exists i0 i1 i2,
              tri = [i0; i1; i2] /\
              i0 < length v /\ i1 < length v /\ i2 < length v) sub.
Proof.
  intros Hzero Hcov Hrange Hlayers Hface.
  set (mesh := to_mesh obj) in *.
  destruct (make_tris_build mesh Hcov) as (tris & Htris & Hcount & Htri3 & Hkeys).
  assert (corners_wf mesh [tris]) as Hwf.
  { constructor; [|constructor].
    eapply Forall_impl; [exact Hkeys|]. intros tri Htr.
    eapply Forall_impl; [exact Htr|]. intros k [(face & Hf & Hk) _].
    eapply Forall_forall in Hrange; [|exact Hf].
    eapply Forall_forall in Hrange; [|exact Hk]. done. }
  destruct (make_verts_total mesh [tris] Hwf) as [[vs isms] Hverts].
  destruct (make_verts_rel _ _ _ _ Hverts) as [(Hn & Hu & Hg) Hrel].
  destruct (make_verts_valid mesh [tris] vs isms Hverts) as [Hidx Hshape].
  assert (exists sub, isms = [sub]) as [sub ->].
  { apply Forall2_length in Hshape.
    destruct isms as [|sub [|? ?]]; try done. by exists sub. }
  assert (tris_wf (length (verts vs)) [sub]) as Htwf.
  { eapply tris_wf_of_shape; [|exact Hshape|exact Hidx]. by constructor. }
  assert (0 < length (verts vs)) as Hpos.
  { assert (0 < length tris) as Hnt.
    { rewrite Hcount. clear -Hface.
      induction Hface as [face l Hf|face l _ IH]; simpl; lia. }
    destruct tris as [|tri tris']; [simpl in Hnt; lia|].
    inversion Htri3 as [|? ? H3 _]; subst.
    destruct tri as [|k0 tri']; [done|].
    destruct (dedup_rel_corner _ _ _ _ 0 0 0 Hrel) as [Hl Hr].
    destruct (Hl k0) as [i Hi]; [done|].
    apply Hr in Hi as [Hi _]. lia. }
  pose proof (stream_uvs_keys _ _ _ _
                (fun u => length u = min 2 (length (uv_layers mesh)))
                Hverts) as Huv.
  assert (Forall (fun u : list (UV (num:=num)) => length u = 2) (uvs vs))
    as Huv2.
  { eapply Forall_impl; [apply Huv|].
    - constructor; [|constructor].
      eapply Forall_impl; [exact Hkeys|]. intros tri Htr.
      eapply Forall_impl; [exact Htr|]. by intros k [_ Hk].
    - cbv beta. intros u Hlu. subst mesh. lia. }
  destruct (map_result_total (fun uv : list (UV (num:=num)) => py_index uv 0)
              (uvs vs)) as [l0 Hl0].
  { eapply Forall_impl; [exact Huv2|]. intros u Hlu. apply py_index_lt.
    simpl in Hlu. lia. }
  destruct (map_result_total (fun uv : list (UV (num:=num)) => py_index uv 1)
              (uvs vs)) as [l1 Hl1].
  { eapply Forall_impl; [exact Huv2|]. intros u Hlu. apply py_index_lt.
    simpl in Hlu. lia. }
  pose proof (map_result_length _ _ _ Hl0) as Hlen0.
  destruct (make_tangents_spec (verts vs) l0 (normals vs) [sub])
    as (st & tangents & _ & Hmt & Hlent & Hent); [done|lia|lia|done|].
  assert (nonempty (uvs vs) = true) as Hne.
  { destruct (uvs vs); [simpl in Hu; lia|done]. }
  assert (nonempty l0 = true) as Hne0.
  { destruct l0; [simpl in Hlen0; lia|done]. }
  assert (Forall (fun e : list num => length e = 4) tangents) as Hfour.
  { eapply Forall_impl; [exact Hent|]. intros e. apply tangent_entry_length. }
  assert (Forall (fun tri => exists i0 i1 i2,
                    tri = [i0; i1; i2] /\
                    i0 < length (verts vs) /\ i1 < length (verts vs) /\
                    i2 < length (verts vs)) sub) as Hsub.
  { by inversion Htwf. }
  unfold make_mesh. fold mesh. rewrite Htris. simpl. rewrite Hverts. simpl.
  rewrite Hne. rewrite (bool_decide_eq_true_2 (0 < length (uvs vs))) by lia.
  rewrite Hl0. simpl.
  destruct (bool_decide (1 < length (uvs vs))).
  - rewrite Hl1. simpl. rewrite Hne0. simpl. rewrite Hmt. simpl.
    eexists _, _, _, _, _, _, _. split; [reflexivity|]. simpl.
    do 5 (split; [reflexivity|]).
    split; [done|]. split; [done|]. split; [lia|]. split; [lia|].
    split; [done|]. split; [done|]. done.
  - simpl. rewrite Hne0. simpl. rewrite Hmt. simpl.
    eexists _, _, _, _, _, _, _. split; [reflexivity|]. simpl.
    do 5 (split; [reflexivity|]).
    split; [done|]. split; [done|]. split; [lia|]. split; [lia|].
    split; [done|]. split; [done|]. done.
Qed.

End AssemblerMore.

(** X10, at a triangle with one uv layer. *)
Lemma make_mesh_few_uv_layers_witness :
  exists sms vs isms,
    make_tris (to_mesh single_uv_object)
              (build_submeshes (to_mesh single_uv_object)) = Ok sms /\
    make_verts (to_mesh single_uv_object) sms = Ok (vs, isms) /\
    2 <= length (verts vs) /\
    length (uv_layers (to_mesh single_uv_object)) < 2 /\
    make_mesh MuMesh_bare single_uv_object = Raise IndexError.
Proof.
  eexists _, _, _.
  split; [vm_compute; reflexivity|]. split; [vm_compute; reflexivity|].
  split; [simpl; lia|]. split; [simpl; lia|].
  eapply (make_mesh_few_uv_layers MuMesh_bare single_uv_object);
    [vm_compute; reflexivity|vm_compute; reflexivity|simpl; lia|simpl; lia].
Defined.

(** X11, at the triangle of [tri_mesh]. *)
Lemma make_mesh_returns_witness :
  zero_is_degenerate (ops:=Q_ops) /\
  faces_covered (to_mesh tri_object) /\
  faces_in_range (to_mesh tri_object) /\
  2 <= length (uv_layers (to_mesh tri_object)) /\
  Exists (fun face => 3 <= length (vertices face))
         (polygons (to_mesh tri_object)) /\
  exists mumesh g v n u t sub,
    make_mesh MuMesh_bare tri_object
    = Ok (mumesh, set_mesh_groups g (to_mesh tri_object)) /\
    mu_verts mumesh = Some v /\ mu_normals mumesh = Some n /\
    mu_uvs mumesh = Some u /\ mu_tangents mumesh = Some t /\
    mu_submeshes mumesh = Some [sub] /\
    0 < length v /\
    length n = length v /\ length u = length v /\ length t = length v /\
    length g = length v /\
    Forall (fun e => length e = 4) t /\
    Forall (fun tri => exists i0 i1 i2,
              tri = [i0; i1; i2] /\
              i0 < length v /\ i1 < length v /\ i2 < length v) sub.
Proof.
  assert (faces_covered (to_mesh tri_object)) as Hcov.
  { repeat constructor; simpl; lia. }
  assert (faces_in_range (to_mesh tri_object)) as Hrange.
  { repeat constructor; simpl; lia. }
  assert (Exists (fun face => 3 <= length (vertices face))
                 (polygons (to_mesh tri_object))) as Hface.
  { constructor. simpl. lia. }
  split; [exact Q_zero_is_degenerate|]. split; [exact Hcov|].
  split; [exact Hrange|]. split; [simpl; lia|]. split; [exact Hface|].
  apply (make_mesh_returns MuMesh_bare tri_object Q_zero_is_degenerate
           Hcov Hrange); [simpl; lia|exact Hface].
Defined.

(** ** [mesh_materials] *)

Section BinderMore.
Context {num : Type}.
Variable make_material : Mu -> Material -> result (Mu * MuMaterial).
Implicit Types (mu : Mu) (mesh : Mesh (num:=num)).
Implicit Types (mats : list Material) (acc : list nat).

Lemma collect_registered_loop mats : forall mu acc,
  all_registered (mu_materials mu) mats ->
  for_each (mesh_materials_step make_material) mats (mu, acc)
  = Ok (mu, acc ++ registered_indices (mu_materials mu) mats).
Proof.
  induction mats as [|mat mats IH]; intros mu acc Hall; simpl.
  - by rewrite app_nil_r.
  - inversion Hall as [|? ? Hmat Hall']; subst.
    case_bool_decide as Hs.
    + destruct (Hmat Hs) as [m Hm].
      rewrite (bool_decide_eq_false_2 (mu_materials mu !! name mat = None))
        by congruence.
      simpl. unfold dict_get. rewrite Hm. simpl.
      rewrite IH by done. by rewrite <- app_assoc.
    + simpl. by apply IH.
Qed.

(** X12: when the material of every slot with a shader is in the
    registry, the loop of [mesh_materials] leaves the registry as it is,
    does not call [make_material], and collects the registered indices
    of the slots with a shader, in slot order. *)
Theorem mesh_materials_registered mu mesh :
  all_registered (mu_materials mu) (materials mesh) ->
  mesh_materials_collect make_material mu mesh
  = Ok (mu, registered_indices (mu_materials mu) (materials mesh)).
Proof.
  intros Hall. unfold mesh_materials_collect.
  by rewrite collect_registered_loop.
Qed.

Lemma mesh_materials_step_Ok mu acc mat mu' acc' :
  keeps_registry make_material ->
  mesh_materials_step make_material (mu, acc) mat = Ok (mu', acc') ->
  mu_materials mu ⊆ mu_materials mu' /\
  if bool_decide (shaderName mat ≠ "")
  then exists m, mu_materials mu' !! name mat = Some m /\
                 acc' = acc ++ [index m]
  else acc' = acc.
Proof.
  intros Hkeep. unfold mesh_materials_step.
  case_bool_decide as Hs; [|by intros [= <- <-]].
  intros (mu1 & Hmu1 & (m & Hm & [= <- <-])%bind_Ok)%bind_Ok.
  unfold dict_get in Hm.
  destruct (mu_materials mu1 !! name mat) as [m'|] eqn:Hl; [|done].
  injection Hm as ->. split; [|by exists m].
  case_bool_decide as Hnew; [|by injection Hmu1 as <-].
  apply bind_Ok in Hmu1 as ([mu2 m2] & Hmk & [= <-]). simpl.
  apply Hkeep in Hmk. by apply insert_subseteq_r.
Qed.

Lemma collect_loop mats : forall mu acc mu' l,
  keeps_registry make_material ->
  for_each (mesh_materials_step make_material) mats (mu, acc) = Ok (mu', l) ->
  mu_materials mu ⊆ mu_materials mu' /\
  all_registered (mu_materials mu') mats /\
  l = acc ++ registered_indices (mu_materials mu') mats.
Proof.
  induction mats as [|mat mats IH]; intros mu acc mu' l Hkeep; simpl.
  - intros [= <- <-]. split; [done|]. split; [constructor|].
    by rewrite app_nil_r.
  - intros ([mu1 acc1] & Hstep & Hrest)%bind_Ok.
    destruct (mesh_materials_step_Ok _ _ _ _ _ Hkeep Hstep) as [Hle Hacc].
    destruct (IH _ _ _ _ Hkeep Hrest) as (Hle' & Hall & ->).
    split; [by etrans|].
    case_bool_decide as Hs.
    + destruct Hacc as (m & Hm & ->).
      assert (mu_materials mu' !! name mat = Some m) as Hm'
        by by eapply lookup_weaken.
      split; [constructor; [by eauto|done]|].
      rewrite Hm'. by rewrite <- app_assoc.
    + subst acc1. split; [|done]. constructor; [|done]. by intros ?.
Qed.

(** X13: with a [make_material] that keeps the records of the registry,
    the loop of [mesh_materials] only adds to the registry; when it is
    done the material of every slot with a shader is registered, the
    list collected holds the registered indices in slot order, and
    running the loop again on the new registry changes nothing and
    collects the same list. *)
Theorem mesh_materials_get_or_create mu mesh mu' l :
  keeps_registry make_material ->
  mesh_materials_collect make_material mu mesh = Ok (mu', l) ->
  mu_materials mu ⊆ mu_materials mu' /\
  all_registered (mu_materials mu') (materials mesh) /\
  l = registered_indices (mu_materials mu') (materials mesh) /\
  mesh_materials_collect make_material mu' mesh = Ok (mu', l).
Proof.
  intros Hkeep Hrun. unfold mesh_materials_collect in *.
  destruct (collect_loop _ _ _ _ _ Hkeep Hrun) as (Hle & Hall & ->).
  simpl. repeat split; try done.
  by rewrite collect_registered_loop.
Qed.

Lemma collect_count_loop mats : forall mu acc mu' l,
  for_each (mesh_materials_step make_material) mats (mu, acc) = Ok (mu', l) ->
  length l
  = length acc + length (filter (fun mat => shaderName mat ≠ "") mats).
Proof.
  induction mats as [|mat mats IH]; intros mu acc mu' l; simpl.
  - intros [= <- <-]. lia.
  - intros ([mu1 acc1] & Hstep & Hrest)%bind_Ok.
    apply IH in Hrest. rewrite Hrest. clear Hrest.
    unfold mesh_materials_step in Hstep. rewrite filter_cons.
    case_bool_decide as Hs.
    + apply bind_Ok in Hstep as (mu2 & _ & (m & _ & [= <- <-])%bind_Ok).
      rewrite length_app.
      destruct (decide (shaderName mat ≠ "")); [simpl; lia|done].
    + injection Hstep as <- <-.
      destruct (decide (shaderName mat ≠ "")); [done|lia].
Qed.

(** X14: when the loop of [mesh_materials] returns, it has collected one
    index for every slot with a shader and none for the others. *)
Theorem mesh_materials_count mu mesh mu' l :
  mesh_materials_collect make_material mu mesh = Ok (mu', l) ->
  length l
  = length (filter (fun mat => shaderName mat ≠ "") (materials mesh)).
Proof.
  unfold mesh_materials_collect. intros Hrun.
  by apply collect_count_loop in Hrun.
Qed.

End BinderMore.

(** X12, at the registry that holds [hull]. *)
Lemma mesh_materials_registered_witness :
  all_registered (mu_materials hull_registry) (materials hull_mesh) /\
  mesh_materials_collect next_material hull_registry hull_mesh
  = Ok (hull_registry,
        registered_indices (mu_materials hull_registry)
                           (materials hull_mesh)).
Proof.
  assert (all_registered (mu_materials hull_registry) (materials hull_mesh))
    as Hall.
  { constructor; [|constructor]. intros _. by eexists. }
  split; [exact Hall|].
  exact (mesh_materials_registered next_material hull_registry hull_mesh Hall).
Defined.

Lemma next_material_keeps : keeps_registry next_material.
Proof. intros mu mat mu' m [= <- _]. done. Qed.

(** X13, at the empty registry: [hull] gets registered. *)
Lemma mesh_materials_get_or_create_witness :
  keeps_registry next_material /\
  exists mu' l,
    mesh_materials_collect next_material empty_registry hull_mesh
    = Ok (mu', l) /\
    mu_materials empty_registry ⊆ mu_materials mu' /\
    all_registered (mu_materials mu') (materials hull_mesh) /\
    l = registered_indices (mu_materials mu') (materials hull_mesh) /\
    mesh_materials_collect next_material mu' hull_mesh = Ok (mu', l).
Proof.
  split; [exact next_material_keeps|].
  eexists _, _. split; [vm_compute; reflexivity|].
  apply (mesh_materials_get_or_create next_material empty_registry hull_mesh);
    [exact next_material_keeps|vm_compute; reflexivity].
Defined.

(** X14, at the empty registry. *)
Lemma mesh_materials_count_witness :
  exists mu' l,
    mesh_materials_collect next_material empty_registry hull_mesh
    = Ok (mu', l) /\
    length l
    = length (filter (fun mat => shaderName mat ≠ "") (materials hull_mesh)).
Proof.
  eexists _, _. split; [vm_compute; reflexivity|].
  eapply (mesh_materials_count next_material empty_registry hull_mesh).
  vm_compute. reflexivity.
Defined.

(** ** [mesh_bones] *)

Section SkinMore.
Context {num : Type} `{Countable num} {ops : FloatOps num}.

Lemma bones_loop (boneset : gset string) (groups : list string) :
  forall bones boneindices,
  (foldl (bones_step boneset) (bones, boneindices) groups).1
  = bones ++ filter (fun g => g ∈ boneset) groups.
Proof.
  induction groups as [|g groups IH]; intros bones boneindices; simpl.
  - by rewrite app_nil_r.
  - rewrite filter_cons. case_bool_decide as Hg.
    + rewrite IH, decide_True by done. by rewrite <- app_assoc.
    + rewrite IH, decide_False by done. done.
Qed.

(** X15: for a [MuMesh] whose [groups] is the empty list, [mesh_bones]
    returns the names of the vertex groups that are bones of the
    armature, in the order of the vertex groups, and prints nothing. *)
Theorem mesh_bones_no_vertices (obj : BObject (num:=num)) mumesh
    (armature : list string) :
  mu_groups mumesh = Some [] ->
  mesh_bones obj mumesh armature
  = Ok (filter (fun g => g ∈ armature) (vertex_groups obj), []).
Proof.
  intros Hg. unfold mesh_bones.
  pose proof (bones_loop (list_to_set armature) (vertex_groups obj) [] ∅)
    as Hb.
  destruct (foldl _ _ _) as [bones boneindices]. simpl in Hb. subst bones.
  rewrite Hg. simpl. f_equal. f_equal.
  apply list_filter_iff. intros g. apply elem_of_list_to_set.
Qed.

End SkinMore.

(** X15, at an object with the groups [A], [B], [C] and the bones [A],
    [B]. *)
Lemma mesh_bones_no_vertices_witness :
  mu_groups no_vertex_mumesh = Some [] /\
  mesh_bones skin_object no_vertex_mumesh ["A"; "B"]
  = Ok (filter (fun g => g ∈ ["A"; "B"]) (vertex_groups skin_object), []).
Proof.
  split; [reflexivity|].
  exact (mesh_bones_no_vertices skin_object no_vertex_mumesh ["A"; "B"]
           eq_refl).
Defined.


(** ** The pipeline of [make_mesh] and [handle_mesh] *)

Section PipelineMore.
Context {num : Type} `{Countable num} {ops : FloatOps num}.
Variable MuMesh_new : MuMesh (num:=num).
Variable make_material : Mu -> Material -> result (Mu * MuMaterial).
Implicit Types (mesh : Mesh (num:=num)) (vs : VertexStream (num:=num)).
Implicit Types (sms : list (list (list (CornerKey (num:=num))))).

Lemma make_tris_one_submesh mesh sms :
  make_tris mesh (build_submeshes mesh) = Ok sms -> exists tris, sms = [tris].
Proof.
  unfold make_tris, build_submeshes. simpl.
  intros (tris & _ & [= <-])%bind_Ok. by exists tris.
Qed.

(** X16: on the submeshes that [make_mesh] builds there is one dict for
    the whole mesh: two corners of the mesh get the same index exactly
    when they have the same CornerKey, and the stream holds one vertex
    for each distinct CornerKey of the mesh. *)
Theorem make_verts_whole_mesh mesh sms vs (isms : list (list (list nat))) :
  make_tris mesh (build_submeshes mesh) = Ok sms ->
  make_verts mesh sms = Ok (vs, isms) ->
  length (verts vs) = size (submesh_keys (concat sms)) /\
  forall s1 t1 c1 s2 t2 c2 k1 k2 i1 i2,
    corner_at sms s1 t1 c1 = Some k1 -> corner_at isms s1 t1 c1 = Some i1 ->
    corner_at sms s2 t2 c2 = Some k2 -> corner_at isms s2 t2 c2 = Some i2 ->
    (i1 = i2 <-> k1 = k2).
Proof.
  intros Htris Hverts.
  destruct (make_tris_one_submesh mesh sms Htris) as [tris ->].
  destruct (make_verts_rel _ _ _ _ Hverts) as [_ Hrel]. split.
  - rewrite (dedup_rel_length _ _ _ _ Hrel). simpl.
    rewrite app_nil_r. lia.
  - intros s1 t1 c1 s2 t2 c2 k1 k2 i1 i2 Hk1 Hi1 Hk2 Hi2.
    assert (forall s t c k, corner_at [tris] s t c = Some k -> s = 0) as Hs0.
    { intros [|s] t c k; [done|]. unfold corner_at. simpl. done. }
    rewrite (dedup_rel_pair _ _ _ _ _ _ _ _ _ _ _ _ _ _ Hrel Hk1 Hi1 Hk2 Hi2).
    apply Hs0 in Hk1, Hk2. subst. split; [by intros [_ ?]|by intros ->].
Qed.

(** X17: [handle_mesh] runs [make_mesh] and then the loop of
    [mesh_materials] on [obj.data], and raises what the first of them to
    raise raises.  When both return, [muobj.shared_mesh] is the [MuMesh],
    [muobj.renderer] is [None], [skinned_mesh_renderer] is as it was, and
    the registry is the one the loop leaves: the materials are registered
    although no renderer is returned. *)
Theorem handle_mesh_outcome (obj : BObject (num:=num)) (muobj : MuObject)
    (mu : Mu) :
  handle_mesh MuMesh_new make_material obj muobj mu
  = match make_mesh MuMesh_new obj with
    | Raise e => Raise e
    | Ok (mumesh, mesh') =>
        match mesh_materials_collect make_material mu (data obj) with
        | Raise e => Raise e
        | Ok (mu', _) =>
            Ok ({| shared_mesh := Some mumesh;
                   renderer := Some None;
                   skinned_mesh_renderer := skinned_mesh_renderer muobj |},
                mu', mesh')
        end
    end.
Proof.
  unfold handle_mesh, make_renderer, mesh_materials.
  destruct (make_mesh MuMesh_new obj) as [[mumesh mesh']|e]; simpl; [|done].
  by destruct (mesh_materials_collect make_material mu (data obj))
    as [[mu' l]|e].
Qed.

End PipelineMore.

(** X16, at [tri_mesh]. *)
Lemma make_verts_whole_mesh_witness :
  exists sms vs isms,
    make_tris tri_mesh (build_submeshes tri_mesh) = Ok sms /\
    make_verts tri_mesh sms = Ok (vs, isms) /\
    length (verts vs) = size (submesh_keys (concat sms)) /\
    forall s1 t1 c1 s2 t2 c2 k1 k2 i1 i2,
      corner_at sms s1 t1 c1 = Some k1 -> corner_at isms s1 t1 c1 = Some i1 ->
      corner_at sms s2 t2 c2 = Some k2 -> corner_at isms s2 t2 c2 = Some i2 ->
      (i1 = i2 <-> k1 = k2).
Proof.
  eexists _, _, _.
  split; [vm_compute; reflexivity|]. split; [vm_compute; reflexivity|].
  apply (make_verts_whole_mesh tri_mesh); vm_compute; reflexivity.
Defined.
